(** * react-currency-localizer: the [useCurrencyConverter] hook

    A shallow embedding of [src/hooks/useCurrencyConverter.ts] together with
    the parts of the JavaScript and React run-time it relies on:

    - JavaScript strings ([toUpperCase], [trim], truthiness) and Numbers
      (IEEE-754 binary64, through [SpecFloat]; [*], [toFixed(2)],
      [parseFloat]);
    - React hook state: [useState], [useRef], [useMemo] caches and
      [useEffect] dependency arrays, with object identity made explicit;
    - the two [useQuery] observers, whose results are supplied by the query
      layer (an external collaborator) and whose options ([queryKey],
      [enabled]) are produced by the hook.

    One call of the hook body followed by the effects React runs after the
    commit is the function [useCurrencyConverter]; a hook instance is a
    [HookState] threaded through successive renders.

    Around the hook, the development also embeds the two query functions
    (the [fetch] of each observer and what it accepts or rejects), the
    component [src/components/LocalizedPrice.tsx] that displays the result
    of the hook, and the test double of [fetch] in
    [tests/__mocks__/fetch.ts]. *)

From Stdlib Require Import ZArith QArith Qround Qabs Qpower Lia Lqa Ascii String.
From Stdlib Require Import Floats.SpecFloat.
From stdpp Require Import base option list strings pretty gmap.

Local Open Scope Z_scope.

(* ===================================================================== *)
(** * JavaScript primitives *)
(* ===================================================================== *)

Module Js.

(** ** Strings

    Currency codes and access keys are ASCII; [toUpperCase] and [trim] are
    modelled on that alphabet. *)

Definition is_lower (c : ascii) : bool :=
  let n := nat_of_ascii c in (97 <=? n)%nat && (n <=? 122)%nat.

Definition is_upper (c : ascii) : bool :=
  let n := nat_of_ascii c in (65 <=? n)%nat && (n <=? 90)%nat.

Definition char_upper (c : ascii) : ascii :=
  if is_lower c then ascii_of_nat (nat_of_ascii c - 32) else c.

Definition char_lower (c : ascii) : ascii :=
  if is_upper c then ascii_of_nat (nat_of_ascii c + 32) else c.

(** [String.prototype.toUpperCase] *)
Fixpoint toUpperCase (s : string) : string :=
  match s with
  | EmptyString => EmptyString
  | String c r => String (char_upper c) (toUpperCase r)
  end.

(** White space and line terminators removed by [trim]: TAB, LF, VT, FF, CR
    and SPACE. *)
Definition is_space (c : ascii) : bool :=
  let n := nat_of_ascii c in
  ((9 <=? n)%nat && (n <=? 13)%nat) || (n =? 32)%nat.

Fixpoint trimStart (s : string) : string :=
  match s with
  | EmptyString => EmptyString
  | String c r => if is_space c then trimStart r else s
  end.

Definition trimEnd (s : string) : string :=
  String.rev (trimStart (String.rev s)).

(** [String.prototype.trim] *)
Definition trim (s : string) : string := trimEnd (trimStart s).

(** Truthiness of a string: every string but the empty one. *)
Definition truthy (s : string) : bool :=
  match s with EmptyString => false | String _ _ => true end.

(** Truthiness of [string | undefined] and [string | null]. *)
Definition truthy_opt (o : option string) : bool :=
  match o with Some s => truthy s | None => false end.

(** [x || null] for [x : string | undefined]. *)
Definition or_null (o : option string) : option string :=
  if truthy_opt o then o else None.

(** ** Numbers: IEEE-754 binary64 *)

Abbreviation number := spec_float (only parsing).

Definition prec : Z := 53.
Definition emax : Z := 1024.

#[global] Instance spec_float_eq_dec : EqDecision spec_float.
Proof. solve_decision. Defined.

(** The [*] operator. *)
Definition mul (x y : number) : number := SFmul prec emax x y.

Definition is_finite (x : number) : bool :=
  match x with
  | S754_zero _ | S754_finite _ _ _ => true
  | _ => false
  end.

(** Truthiness of a Number: every value but [+0], [-0] and [NaN]. *)
Definition number_truthy (x : number) : bool :=
  match x with
  | S754_zero _ | S754_nan => false
  | _ => true
  end.

(** The Number of an integer literal. *)
Definition of_Z (z : Z) : number := binary_normalize prec emax z 0 false.

(** *** [Number.prototype.toFixed(2)] and [parseFloat]

    The text produced by [toFixed(2)] is kept structured:
    - ["NaN"], ["Infinity"], ["-Infinity"] for the non-finite values;
    - for [|x| >= 10^21], the text of [ToString(x)], which reads back as
      [x];
    - otherwise an optional ["-"] and the decimal digits of an integer [n]
      with a point before the last two: the text denotes [n / 100]. *)
Inductive fixed_text : Type :=
  | TextNaN
  | TextInfinity (negative : bool)
  | TextToString (x : number)
  | TextDecimal (negative : bool) (hundredths : Z).

(** "Let n be an integer for which n / 10^2 - x is as close to zero as
    possible. If there are two such n, pick the larger n", for
    [x = m * 2^e > 0]. *)
Definition nearest_hundredths (m : positive) (e : Z) : Z :=
  if 0 <=? e then 100 * Z.pos m * 2 ^ e
  else (200 * Z.pos m + 2 ^ (- e)) / 2 ^ (- e + 1).

(** [10^21 <= m * 2^e] *)
Definition at_least_1e21 (m : positive) (e : Z) : bool :=
  if 0 <=? e then 10 ^ 21 <=? Z.pos m * 2 ^ e
  else 10 ^ 21 * 2 ^ (- e) <=? Z.pos m.

Definition toFixed2 (x : number) : fixed_text :=
  match x with
  | S754_nan => TextNaN
  | S754_infinity s => TextInfinity s
  | S754_zero _ => TextDecimal false 0
  | S754_finite s m e =>
      if at_least_1e21 m e then TextToString x
      else TextDecimal s (nearest_hundredths m e)
  end.

(** [parseFloat] on the texts above: the Number nearest to the decimal
    (ties to even), with the sign of the text. *)
Definition parseFloat (t : fixed_text) : number :=
  match t with
  | TextNaN => S754_nan
  | TextInfinity s => S754_infinity s
  | TextToString x => x
  | TextDecimal s n =>
      match n with
      | Z.pos p => SFdiv prec emax (S754_finite s p 0) (S754_finite false 100 0)
      | _ => S754_zero s
      end
  end.

(** A decimal literal with two fraction digits, e.g. [0.88] is
    [hundredths 88]. *)
Definition hundredths (n : Z) : number :=
  parseFloat (TextDecimal (n <? 0) (Z.abs n)).

(** The rational value of a finite Number. *)
Definition to_Q (x : number) : Q :=
  match x with
  | S754_finite s m e =>
      let v := if 0 <=? e then inject_Z (Z.pos m * 2 ^ e)
               else Z.pos m # Z.to_pos (2 ^ (- e)) in
      if s then Qopp v else v
  | _ => 0%Q
  end.

End Js.

(* ===================================================================== *)
(** * Data model ([src/types/index.ts]) *)
(* ===================================================================== *)

(** Identity of a heap object. Objects handed over by the query layer and
    objects allocated by the hook body live in disjoint ranges. *)
Inductive ObjId : Type :=
  | QueryObj (n : nat)
  | HookObj (n : nat).

#[global] Instance ObjId_eq_dec : EqDecision ObjId.
Proof. solve_decision. Defined.

(** A JavaScript [Error]. Objects are immutable here and carry their
    identity, so two equal records are one object and [Object.is] on
    objects is equality of records. *)
Record Error : Type := mkError {
  message : string;
  error_ref : ObjId;
}.

#[global] Instance Error_eq_dec : EqDecision Error.
Proof. solve_decision. Defined.

(** [GeolocationResponse] *)
Record GeolocationResponse : Type := mkGeo {
  geo_currency : string;
  geo_countryCode : option string;
}.

(** [ExchangeRateResponse]; [conversion_rates] is optional because the hook
    tests it for presence. *)
Record ExchangeRateResponse : Type := mkRates {
  base_code : string;
  conversion_rates : option (gmap string Js.number);
  response_ref : ObjId;
}.

#[global] Instance ExchangeRateResponse_eq_dec : EqDecision ExchangeRateResponse.
Proof. solve_decision. Defined.

(** The property names every object parsed from JSON inherits from
    [Object.prototype]: the members of the standard and the accessors and
    methods of its Annex B. *)
Definition objectPrototype : list string :=
  ["constructor"; "hasOwnProperty"; "isPrototypeOf"; "propertyIsEnumerable";
   "toLocaleString"; "toString"; "valueOf"; "__proto__";
   "__defineGetter__"; "__defineSetter__"; "__lookupGetter__"; "__lookupSetter__"].

(** [name in {}] *)
Definition inherited (name : string) : bool := bool_decide (name ∈ objectPrototype).

(** What a non-null [exchangeRate] holds: a Number read from the rate
    table, or the member of [Object.prototype] of that name (a function;
    for [__proto__] the prototype object itself). The field is declared
    [number | null], but a property read does not check it. *)
Inductive Rate : Type :=
  | Quoted (x : Js.number)
  | Inherited (member : string).

#[global] Instance Rate_eq_dec : EqDecision Rate.
Proof. solve_decision. Defined.

(** [CurrencyResult] *)
Record CurrencyResult : Type := mkResult {
  convertedPrice : option Js.number;
  localCurrency : option string;
  baseCurrency : string;
  exchangeRate : option Rate;
  isLoading : bool;
  error : option Error;
}.

#[global] Instance CurrencyResult_eq_dec : EqDecision CurrencyResult.
Proof. solve_decision. Defined.

(** The object the hook returns: a [CurrencyResult] with its identity. *)
Record ResultObject : Type := mkResultObject {
  result_ref : ObjId;
  result_value : CurrencyResult;
}.

#[global] Instance ResultObject_eq_dec : EqDecision ResultObject.
Proof. solve_decision. Defined.

(** A callback is known by its function identity. *)
Definition Callback : Type := nat.

(** [UseCurrencyConverterOptions]. [basePrice] is typed [number], so the
    hook's [typeof basePrice === 'number'] test always succeeds; [apiKey]
    is typed [string] but callers do pass [undefined]. *)
Record Options : Type := mkOptions {
  basePrice : Js.number;
  opt_baseCurrency : string;
  apiKey : option string;
  manualCurrency : option string;
  onSuccess : option Callback;
  onError : option Callback;
}.

(** What one [useQuery] observer reports. *)
Record QueryResult (A : Type) : Type := mkQuery {
  q_data : option A;
  q_error : option Error;
  q_isLoading : bool;
}.
Arguments mkQuery {A} _ _ _.
Arguments q_data {A} _.
Arguments q_error {A} _.
Arguments q_isLoading {A} _.

(** A query that has never been fetched. *)
Definition idle {A : Type} : QueryResult A := mkQuery None None false.

(** The query cache as the hook sees it: one entry under the fixed key
    [['geolocation']], and one entry per key
    [['exchange-rates', upperBaseCurrency, localCurrency]]. *)
Record QueryLayer : Type := mkLayer {
  geolocation : QueryResult GeolocationResponse;
  exchangeRates : string -> option string -> QueryResult ExchangeRateResponse;
}.

(** The options the hook hands to [useQuery]. *)
Record QueryOptions : Type := mkQueryOptions {
  queryKey : list (option string);
  requestUrl : string;
  enabled : bool;
}.

(** An invocation of a user callback. *)
Inductive Call : Type :=
  | CallOnSuccess (f : Callback) (data : ResultObject)
  | CallOnError (f : Callback) (err : Error).

(* ===================================================================== *)
(** * React hook state *)
(* ===================================================================== *)

(** The value of [exchangeRate]: [null], [undefined] (a lookup that
    misses), a Number, or a member inherited from [Object.prototype]. *)
Inductive RateValue : Type :=
  | RateNull
  | RateUndefined
  | RateNumber (x : Js.number)
  | RateInherited (member : string).

#[global] Instance RateValue_eq_dec : EqDecision RateValue.
Proof. solve_decision. Defined.

(** Dependency arrays, as tuples. *)
Definition MismatchDeps : Type := option string * option ExchangeRateResponse.
Definition ResultDeps : Type :=
  option Js.number * option string * string * RateValue * bool * option Error.
Definition CurrencyEffectDeps : Type := option string * option string.
Definition SuccessEffectDeps : Type :=
  bool * option Error * option Js.number * ResultObject.
Definition ErrorEffectDeps : Type := bool * option Error.

(** Everything React keeps for one instance of the hook between renders. *)
Record HookState : Type := mkState {
  st_localCurrency : option string;                       (* useState *)
  onSuccessRef : option Callback;                         (* useRef *)
  onErrorRef : option Callback;                           (* useRef *)
  apiKeyMemo : option (option string * option Error);     (* useMemo *)
  mismatchMemo : option (MismatchDeps * option Error);    (* useMemo *)
  resultMemo : option (ResultDeps * ResultObject);        (* useMemo *)
  currencyEffect : option CurrencyEffectDeps;             (* useEffect *)
  successEffect : option SuccessEffectDeps;               (* useEffect *)
  errorEffect : option ErrorEffectDeps;                   (* useEffect *)
  nextId : nat;                                           (* allocator *)
}.

(** [useMemo(create, deps)]: the cached value is reused while the
    dependencies are unchanged; [create] may allocate. *)
Definition useMemo {D V : Type} `{EqDecision D}
    (cache : option (D * V)) (deps : D) (create : nat -> V * nat) (next : nat)
  : V * option (D * V) * nat :=
  match cache with
  | Some (d, v) =>
      if decide (d = deps) then (v, cache, next)
      else let '(v', next') := create next in (v', Some (deps, v'), next')
  | None => let '(v', next') := create next in (v', Some (deps, v'), next')
  end.

(** [useEffect(effect, deps)] runs [effect] after the first render and
    after every render whose dependencies differ from the previous ones. *)
Definition effect_due {D : Type} `{EqDecision D} (previous : option D) (deps : D) : bool :=
  match previous with
  | Some d => negb (bool_decide (d = deps))
  | None => true
  end.

(** [a || b] on [Error | null]: objects are truthy. *)
Definition or_else {A : Type} (a b : option A) : option A :=
  match a with Some _ => a | None => b end.

(* ===================================================================== *)
(** * The hook ([src/hooks/useCurrencyConverter.ts]) *)
(* ===================================================================== *)

(** [baseCurrency.toUpperCase()] *)
Definition upperBaseCurrency (o : Options) : string :=
  Js.toUpperCase (opt_baseCurrency o).

(** [manualCurrency?.toUpperCase()] *)
Definition upperManualCurrency (o : Options) : option string :=
  Js.toUpperCase <$> manualCurrency o.

(** [!apiKey || apiKey.trim() === ''] *)
Definition keyIsBlank (key : option string) : bool :=
  match key with
  | None => true
  | Some k => negb (Js.truthy k) || bool_decide (Js.trim k = "")
  end.

Definition apiKeyMissing : string :=
  "API key is missing. Please provide a valid key from exchangerate-api.com.".

(** The body of the [apiKeyError] memo. *)
Definition apiKeyError_create (key : option string) (next : nat) : option Error * nat :=
  if keyIsBlank key then (Some (mkError apiKeyMissing (HookObj next)), S next)
  else (None, next).

(** [localCurrency in exchangeData.conversion_rates]: [in] finds the own
    properties of the table and those it inherits. *)
Definition has_rate (rates : gmap string Js.number) (code : string) : bool :=
  bool_decide (is_Some (rates !! code)) || inherited code.

Definition mismatchMessage (code : string) : string :=
  "Currency '" +:+ code +:+
  "' was detected from your location but is not supported by the exchange rate provider.".

(** The body of the [currencyMismatchError] memo. *)
Definition mismatch_create (deps : MismatchDeps) (next : nat) : option Error * nat :=
  match deps with
  | (Some code, Some response) =>
      match conversion_rates response with
      | Some rates =>
          if Js.truthy code && negb (has_rate rates code)
          then (Some (mkError (mismatchMessage code) (HookObj next)), S next)
          else (None, next)
      | None => (None, next)
      end
  | _ => (None, next)
  end.

(** [localCurrency && exchangeData?.conversion_rates
      ? exchangeData.conversion_rates[localCurrency] : null]: the property
    read follows the prototype chain of the table. *)
Definition exchangeRate_of (local : option string)
    (response : option ExchangeRateResponse) : RateValue :=
  match local, response with
  | Some code, Some r =>
      match conversion_rates r with
      | Some rates =>
          if Js.truthy code then
            match rates !! code with
            | Some x => RateNumber x
            | None => if inherited code then RateInherited code else RateUndefined
            end
          else RateNull
      | None => RateNull
      end
  | _, _ => RateNull
  end.

(** [parseFloat((basePrice * exchangeRate).toFixed(2))] *)
Definition convert (price rate : Js.number) : Js.number :=
  Js.parseFloat (Js.toFixed2 (Js.mul price rate)).

(** [(typeof basePrice === 'number') && exchangeRate !== null
      && !currencyMismatchError ? convert : null];
    [undefined], a function and an object are [NaN] as a Number. *)
Definition convertedPrice_of (price : Js.number) (rate : RateValue)
    (mismatch : option Error) : option Js.number :=
  match rate, mismatch with
  | RateNull, _ => None
  | _, Some _ => None
  | RateNumber x, None => Some (convert price x)
  | RateUndefined, None => Some (convert price S754_nan)
  | RateInherited _, None => Some (convert price S754_nan)
  end.

(** [exchangeRate || null]: functions and objects are truthy. *)
Definition rate_or_null (rate : RateValue) : option Rate :=
  match rate with
  | RateNumber x => if Js.number_truthy x then Some (Quoted x) else None
  | RateInherited member => Some (Inherited member)
  | _ => None
  end.

(** The body of the [result] memo. *)
Definition result_create (deps : ResultDeps) (next : nat) : ResultObject * nat :=
  let '(converted, local, base, rate, loading, err) := deps in
  (mkResultObject (HookObj next)
     (mkResult converted local base (rate_or_null rate) loading err),
   S next).

(** The text of a template-literal hole holding [string | undefined]. *)
Definition interpolate (o : option string) : string :=
  match o with Some s => s | None => "undefined" end.

Definition geolocationUrl : string :=
  "http://ip-api.com/json/?fields=status,currency,countryCode,message".

Definition exchangeRateUrl (key : option string) (base : string) : string :=
  "https://v6.exchangerate-api.com/v6/" +:+ interpolate key +:+ "/latest/" +:+ base.

(** What one render produces: the returned object, the state React keeps,
    the callbacks invoked by the effects, and the options of both
    observers. *)
Record RenderOut : Type := mkOut {
  returned : ResultObject;
  state : HookState;
  calls : list Call;
  geolocationQuery : QueryOptions;
  exchangeQuery : QueryOptions;
}.

(** The state of a freshly mounted instance: [useState] and [useRef] take
    their initial values, nothing is memoized and no effect has run. *)
Definition mount (o : Options) : HookState :=
  {| st_localCurrency := Js.or_null (upperManualCurrency o);
     onSuccessRef := onSuccess o;
     onErrorRef := onError o;
     apiKeyMemo := None;
     mismatchMemo := None;
     resultMemo := None;
     currencyEffect := None;
     successEffect := None;
     errorEffect := None;
     nextId := 0 |}.

(** The local currency after the currency effect:
    [if (upperManualCurrency) setLocalCurrency(upperManualCurrency)
     else if (geoData?.currency) setLocalCurrency(geoData.currency)]. *)
Definition currencyEffect_body (manual geo current : option string) : option string :=
  if Js.truthy_opt manual then manual
  else if Js.truthy_opt geo then geo
  else current.

(** One render of the hook followed by its effects, in source order. *)
Definition useCurrencyConverter (o : Options) (q : QueryLayer) (st : HookState) : RenderOut :=
  let upperBase := upperBaseCurrency o in
  let upperManual := upperManualCurrency o in
  let local := st_localCurrency st in
  (* useMemo: apiKeyError *)
  let '(apiKeyError, keyMemo, n1) :=
    useMemo (apiKeyMemo st) (apiKey o) (apiKeyError_create (apiKey o)) (nextId st) in
  (* useQuery: geolocation *)
  let geo := geolocation q in
  let geoError := q_error geo in
  let isGeoLoading := q_isLoading geo in
  let geoOptions :=
    {| queryKey := [Some "geolocation"];
       requestUrl := geolocationUrl;
       enabled := negb (Js.truthy_opt upperManual) && negb (bool_decide (is_Some apiKeyError)) |} in
  (* useQuery: exchange rates *)
  let exchange := exchangeRates q upperBase local in
  let exchangeData := q_data exchange in
  let exchangeError := q_error exchange in
  let isExchangeLoading := q_isLoading exchange in
  let exchangeOptions :=
    {| queryKey := [Some "exchange-rates"; Some upperBase; local];
       requestUrl := exchangeRateUrl (apiKey o) upperBase;
       enabled := Js.truthy_opt local && negb (bool_decide (is_Some apiKeyError)) |} in
  let geoCurrency := geo_currency <$> q_data geo in
  (* derived values *)
  let rate := exchangeRate_of local exchangeData in
  let '(currencyMismatchError, misMemo, n2) :=
    useMemo (mismatchMemo st) (local, exchangeData)
      (mismatch_create (local, exchangeData)) n1 in
  let loading := isGeoLoading || (isExchangeLoading && Js.truthy_opt local) in
  let err := or_else geoError (or_else exchangeError (or_else currencyMismatchError apiKeyError)) in
  let converted := convertedPrice_of (basePrice o) rate currencyMismatchError in
  let resultDeps := (converted, local, upperBase, rate, loading, err) in
  let '(result, resMemo, n3) :=
    useMemo (resultMemo st) resultDeps (result_create resultDeps) n2 in
  (* effect: keep the refs on the latest callbacks (no dependency array) *)
  let successRef := onSuccess o in
  let errorRef := onError o in
  (* effect: update localCurrency *)
  let currencyDeps := (upperManual, geoCurrency) in
  let local' :=
    if effect_due (currencyEffect st) currencyDeps
    then currencyEffect_body upperManual geoCurrency local
    else local in
  (* effect: onSuccess *)
  let successDeps := (loading, err, converted, result) in
  let successCalls :=
    if effect_due (successEffect st) successDeps
       && negb loading && negb (bool_decide (is_Some err))
       && bool_decide (is_Some converted)
    then match successRef with
         | Some f => [CallOnSuccess f result]
         | None => []
         end
    else [] in
  (* effect: onError *)
  let errorDeps := (loading, err) in
  let errorCalls :=
    if effect_due (errorEffect st) errorDeps && negb loading
    then match err, errorRef with
         | Some e, Some f => [CallOnError f e]
         | _, _ => []
         end
    else [] in
  {| returned := result;
     state :=
       {| st_localCurrency := local';
          onSuccessRef := successRef;
          onErrorRef := errorRef;
          apiKeyMemo := keyMemo;
          mismatchMemo := misMemo;
          resultMemo := resMemo;
          currencyEffect := Some currencyDeps;
          successEffect := Some successDeps;
          errorEffect := Some errorDeps;
          nextId := n3 |};
     calls := successCalls ++ errorCalls;
     geolocationQuery := geoOptions;
     exchangeQuery := exchangeOptions |}.

(* ===================================================================== *)
(** * Hook instances over time *)
(* ===================================================================== *)

(** One evaluation of the hook: the options passed by the caller and the
    state of the query cache at that moment. *)
Record Render : Type := mkRender {
  r_options : Options;
  r_queries : QueryLayer;
}.

(** Successive renders of one instance. *)
Fixpoint run (st : HookState) (rs : list Render) : list RenderOut :=
  match rs with
  | [] => []
  | r :: rest =>
      let out := useCurrencyConverter (r_options r) (r_queries r) st in
      out :: run (state out) rest
  end.

Fixpoint run_state (st : HookState) (rs : list Render) : HookState :=
  match rs with
  | [] => st
  | r :: rest =>
      run_state (state (useCurrencyConverter (r_options r) (r_queries r) st)) rest
  end.

(** The states an instance can be in: freshly mounted, or after a render. *)
Inductive reachable : HookState -> Prop :=
  | reach_mount (o : Options) : reachable (mount o)
  | reach_render (o : Options) (q : QueryLayer) (st : HookState) :
      reachable st -> reachable (state (useCurrencyConverter o q st)).

(** The query layer starts a fetch for an observer only while the observer
    is enabled: these are the requests a render allows. *)
Definition allowed_requests (out : RenderOut) : list string :=
  (if enabled (geolocationQuery out) then [requestUrl (geolocationQuery out)] else [])
  ++ (if enabled (exchangeQuery out) then [requestUrl (exchangeQuery out)] else []).

(** ** The values a render reads from the query layer *)

(** The exchange-rate observer of a render: the cache entry under
    [['exchange-rates', upperBaseCurrency, localCurrency]]. *)
Definition render_exchange (o : Options) (q : QueryLayer) (local : option string)
  : QueryResult ExchangeRateResponse :=
  exchangeRates q (upperBaseCurrency o) local.

(** [exchangeRate] *)
Definition render_rate (o : Options) (q : QueryLayer) (local : option string) : RateValue :=
  exchangeRate_of local (q_data (render_exchange o q local)).

(** [isLoading] *)
Definition render_isLoading (o : Options) (q : QueryLayer) (local : option string) : bool :=
  q_isLoading (geolocation q)
  || (q_isLoading (render_exchange o q local) && Js.truthy_opt local).

(** ** Invariants of the reachable states *)

(** A memo cache holds a value its body computes from the cached
    dependencies. *)
Definition memo_coherent {D V : Type} (create : D -> nat -> V * nat)
    (cache : option (D * V)) : Prop :=
  forall d v, cache = Some (d, v) -> exists n, v = (create d n).1.

Definition coherent (st : HookState) : Prop :=
  memo_coherent apiKeyError_create (apiKeyMemo st)
  /\ memo_coherent mismatch_create (mismatchMemo st)
  /\ memo_coherent result_create (resultMemo st).

(* ===================================================================== *)
(** * The values of one render *)
(* ===================================================================== *)

(** The three memo slots of a render, in source order. *)
Definition slot_apiKeyError (o : Options) (st : HookState) :=
  useMemo (apiKeyMemo st) (apiKey o) (apiKeyError_create (apiKey o)) (nextId st).

Definition slot_mismatch (o : Options) (q : QueryLayer) (st : HookState) :=
  let deps := (st_localCurrency st,
               q_data (render_exchange o q (st_localCurrency st))) in
  useMemo (mismatchMemo st) deps (mismatch_create deps) (slot_apiKeyError o st).2.

(** The values a render computes before building the result. *)
Definition render_error (o : Options) (q : QueryLayer) (st : HookState) : option Error :=
  or_else (q_error (geolocation q))
    (or_else (q_error (render_exchange o q (st_localCurrency st)))
       (or_else (slot_mismatch o q st).1.1 (slot_apiKeyError o st).1.1)).

Definition render_converted (o : Options) (q : QueryLayer) (st : HookState)
  : option Js.number :=
  convertedPrice_of (basePrice o) (render_rate o q (st_localCurrency st))
    (slot_mismatch o q st).1.1.

Definition render_resultDeps (o : Options) (q : QueryLayer) (st : HookState) : ResultDeps :=
  (render_converted o q st, st_localCurrency st, upperBaseCurrency o,
   render_rate o q (st_localCurrency st),
   render_isLoading o q (st_localCurrency st), render_error o q st).

Definition slot_result (o : Options) (q : QueryLayer) (st : HookState) :=
  useMemo (resultMemo st) (render_resultDeps o q st)
    (result_create (render_resultDeps o q st)) (slot_mismatch o q st).2.

Definition render_currencyDeps (o : Options) (q : QueryLayer) : CurrencyEffectDeps :=
  (upperManualCurrency o, geo_currency <$> q_data (geolocation q)).

Definition render_successDeps (o : Options) (q : QueryLayer) (st : HookState)
  : SuccessEffectDeps :=
  (render_isLoading o q (st_localCurrency st), render_error o q st,
   render_converted o q st, (slot_result o q st).1.1).

Definition render_errorDeps (o : Options) (q : QueryLayer) (st : HookState)
  : ErrorEffectDeps :=
  (render_isLoading o q (st_localCurrency st), render_error o q st).

(** The callbacks the success effect invokes. *)
Definition success_calls (o : Options) (q : QueryLayer) (st : HookState) : list Call :=
  if effect_due (successEffect st) (render_successDeps o q st)
     && negb (render_isLoading o q (st_localCurrency st))
     && negb (bool_decide (is_Some (render_error o q st)))
     && bool_decide (is_Some (render_converted o q st))
  then match onSuccess o with
       | Some f => [CallOnSuccess f (slot_result o q st).1.1]
       | None => []
       end
  else [].

(** The callbacks the error effect invokes. *)
Definition error_calls (o : Options) (q : QueryLayer) (st : HookState) : list Call :=
  if effect_due (errorEffect st) (render_errorDeps o q st)
     && negb (render_isLoading o q (st_localCurrency st))
  then match render_error o q st, onError o with
       | Some e, Some f => [CallOnError f e]
       | _, _ => []
       end
  else [].

(** The snapshot a render returns. *)
Definition snapshot (o : Options) (q : QueryLayer) (st : HookState) : CurrencyResult :=
  result_value (returned (useCurrencyConverter o q st)).

(** The error objects a render holds, by source. *)
Definition geolocationError (q : QueryLayer) : option Error :=
  q_error (geolocation q).

Definition rateFetchError (o : Options) (q : QueryLayer) (st : HookState) : option Error :=
  q_error (exchangeRates q (upperBaseCurrency o) (st_localCurrency st)).

Definition mismatchError (o : Options) (q : QueryLayer) (st : HookState) : option Error :=
  (slot_mismatch o q st).1.1.

Definition credentialError (o : Options) (st : HookState) : option Error :=
  (slot_apiKeyError o st).1.1.

(** The rate table a render holds. *)
Definition rateResponse (o : Options) (q : QueryLayer) (st : HookState)
  : option ExchangeRateResponse :=
  q_data (exchangeRates q (upperBaseCurrency o) (st_localCurrency st)).

(** The access key is absent, undefined, or trims to the empty string. *)
Definition key_absent_or_blank (key : option string) : Prop :=
  key = None \/ exists k, key = Some k /\ Js.trim k = "".

(** A manual currency is supplied. *)
Definition manual_supplied (o : Options) : Prop :=
  exists manual, manualCurrency o = Some manual /\ manual <> "".

(** The first error present in a list of sources. *)
Fixpoint first_present (sources : list (option Error)) : option Error :=
  match sources with
  | [] => None
  | Some e :: _ => Some e
  | None :: rest => first_present rest
  end.

(** The resolved currency is no property of a fetched rate table. *)
Definition mismatch_applies (local : option string)
    (response : option ExchangeRateResponse) : bool :=
  match local, response with
  | Some code, Some r =>
      match conversion_rates r with
      | Some rates => Js.truthy code && negb (has_rate rates code)
      | None => false
      end
  | _, _ => false
  end.

(** [hay.includes(needle)] *)
Fixpoint includes (needle hay : string) : bool :=
  String.prefix needle hay
  || match hay with
     | EmptyString => false
     | String _ rest => includes needle rest
     end.

(** Once the currency effect has run with a manual currency, the state
    holds that currency (an invariant of the reachable states). *)
Definition currency_synced (st : HookState) : Prop :=
  forall manual geo,
    currencyEffect st = Some (manual, geo) ->
    Js.truthy_opt manual = true ->
    st_localCurrency st = manual.

(* ===================================================================== *)
(** * Requests that differ in letter case *)
(* ===================================================================== *)

(** Two characters that are equal or the two cases of one letter. *)
Definition same_letter (x y : ascii) : bool :=
  bool_decide (x = y)
  || (Js.is_lower x && bool_decide (y = Js.char_upper x))
  || (Js.is_upper x && bool_decide (y = Js.char_lower x)).

(** Two strings that differ at most in the case of their letters. *)
Fixpoint same_ignoring_case (a b : string) : bool :=
  match a, b with
  | EmptyString, EmptyString => true
  | String x a', String y b' => same_letter x y && same_ignoring_case a' b'
  | _, _ => false
  end.

(** Two requests that are identical except for the letter case of
    [baseCurrency] and [manualCurrency]. *)
Definition differ_only_in_case (o1 o2 : Options) : Prop :=
  basePrice o1 = basePrice o2
  /\ apiKey o1 = apiKey o2
  /\ onSuccess o1 = onSuccess o2
  /\ onError o1 = onError o2
  /\ same_ignoring_case (opt_baseCurrency o1) (opt_baseCurrency o2) = true
  /\ match manualCurrency o1, manualCurrency o2 with
     | Some a, Some b => same_ignoring_case a b = true
     | None, None => True
     | _, _ => False
     end.

(* ===================================================================== *)
(** * Re-rendering with other callbacks *)
(* ===================================================================== *)

(** The same request with other callback functions. *)
Definition with_callbacks (o : Options) (cb : option Callback * option Callback) : Options :=
  {| basePrice := basePrice o;
     opt_baseCurrency := opt_baseCurrency o;
     apiKey := apiKey o;
     manualCurrency := manualCurrency o;
     onSuccess := cb.1;
     onError := cb.2 |}.

(** The same hook state with other contents in the two refs. *)
Definition set_refs (st : HookState) (success failure : option Callback) : HookState :=
  {| st_localCurrency := st_localCurrency st;
     onSuccessRef := success;
     onErrorRef := failure;
     apiKeyMemo := apiKeyMemo st;
     mismatchMemo := mismatchMemo st;
     resultMemo := resultMemo st;
     currencyEffect := currencyEffect st;
     successEffect := successEffect st;
     errorEffect := errorEffect st;
     nextId := nextId st |}.

(** The callback a call went to is the one supplied in [o]. *)
Definition to_latest (o : Options) (c : Call) : Prop :=
  match c with
  | CallOnSuccess f _ => onSuccess o = Some f
  | CallOnError g _ => onError o = Some g
  end.

(** The outcome of a render has not been notified yet: the instance is
    fresh, or [isLoading], [error], [convertedPrice] or the result object
    changed since its previous render. *)
Definition success_newly_reached (o : Options) (q : QueryLayer) (st : HookState) : Prop :=
  successEffect st <> Some (render_successDeps o q st).

Definition error_newly_reached (o : Options) (q : QueryLayer) (st : HookState) : Prop :=
  errorEffect st <> Some (render_errorDeps o q st).

(** Renders of the same request against the same query layer, each with
    its own callbacks. *)
Definition rerenders (o : Options) (q : QueryLayer)
    (later : list (option Callback * option Callback)) : list Render :=
  map (fun cb => mkRender (with_callbacks o cb) q) later.

(* ===================================================================== *)
(** * Rounding to two decimal places *)
(* ===================================================================== *)

(** The magnitude [m * 2^e] of a finite Number, as a rational. *)
Definition magnitude (m : positive) (e : Z) : Q :=
  if 0 <=? e then inject_Z (Z.pos m * 2 ^ e) else Z.pos m # Z.to_pos (2 ^ (- e)).

(** Rounding to two decimal places, half away from zero, as the
    specification words it: the nearest multiple of 1/100, a tie going to
    the one of larger magnitude. *)
Definition round2_half_away (x : Q) : Q :=
  let n := Qfloor (Qabs x * 100 + (1 # 2)) in
  ((if Qlt_le_dec x 0 then inject_Z (- n) else inject_Z n) / 100)%Q.

(** The rational a text of [toFixed(2)] denotes. *)
Definition text_value (t : Js.fixed_text) : Q :=
  match t with
  | Js.TextDecimal s n => ((if s then inject_Z (- n) else inject_Z n) / 100)%Q
  | Js.TextToString x => Js.to_Q x
  | _ => 0%Q
  end.

(** ** Reading a decimal back as a Number *)

(** The fraction [N / D] lies in [[m, m + 1)], where [m] is the mantissa of
    the record, and the round and sticky bits say where: the round bit is
    set from the middle on, the sticky bit off the middle and off [m]. *)
Definition locates (N D : Z) (r : shr_record) : Prop :=
  let rest := N - shr_m r * D in
  0 <= rest < D
  /\ (shr_r r = true <-> D <= 2 * rest)
  /\ (shr_s r = true <-> rest <> 0 /\ 2 * rest <> D).


(** The Numbers other than the infinities and [NaN]: a zero, or a
    mantissa of at most 53 bits with an exponent. (The exponent range is
    left open: a larger set to compare against.) *)
Definition representable (x : Js.number) : Prop :=
  match x with
  | S754_zero _ => True
  | S754_finite _ m _ => Z.pos m < 2 ^ 53
  | _ => False
  end.

(** [x] is a Number nearest to the rational [v]: no Number is nearer. *)
Definition nearest_Number (v : Q) (x : Js.number) : Prop :=
  representable x
  /\ forall y, representable y -> (Qabs (Js.to_Q x - v) <= Qabs (Js.to_Q y - v))%Q.

(* ===================================================================== *)
(** * Concrete requests and query-cache contents *)
(* ===================================================================== *)

Module Scenario.

(** [{ USD: 1, EUR: 0.88, GBP: 0.74 }] *)
Definition table : gmap string Js.number :=
  <["USD" := Js.of_Z 1]> (<["EUR" := Js.hundredths 88]> (<["GBP" := Js.hundredths 74]> ∅)).

Definition rates : ExchangeRateResponse := mkRates "USD" (Some table) (QueryObj 0).

(** [{ EUR: 0 }] *)
Definition zeroTable : gmap string Js.number := <["EUR" := S754_zero false]> ∅.

Definition zeroRates : ExchangeRateResponse := mkRates "USD" (Some zeroTable) (QueryObj 3).

Definition geoFailure : Error := mkError "Geolocation API error: 500" (QueryObj 1).
Definition rateFailure : Error := mkError "Exchange rate API error: 500" (QueryObj 2).

(** [{ basePrice: 100, baseCurrency: 'USD', apiKey: 'test-api-key' }] *)
Definition request : Options :=
  {| basePrice := Js.of_Z 100; opt_baseCurrency := "USD";
     apiKey := Some "test-api-key"; manualCurrency := None;
     onSuccess := Some 1%nat; onError := Some 2%nat |}.

Definition with_manual (code : string) (o : Options) : Options :=
  {| basePrice := basePrice o; opt_baseCurrency := opt_baseCurrency o;
     apiKey := apiKey o; manualCurrency := Some code;
     onSuccess := onSuccess o; onError := onError o |}.

Definition with_key (key : option string) (o : Options) : Options :=
  {| basePrice := basePrice o; opt_baseCurrency := opt_baseCurrency o;
     apiKey := key; manualCurrency := manualCurrency o;
     onSuccess := onSuccess o; onError := onError o |}.

Definition with_price (price : Js.number) (o : Options) : Options :=
  {| basePrice := price; opt_baseCurrency := opt_baseCurrency o;
     apiKey := apiKey o; manualCurrency := manualCurrency o;
     onSuccess := onSuccess o; onError := onError o |}.

(** How the query layer updates a cache entry when a fetch ends: a
    successful fetch stores the data and clears the error; a failed fetch
    stores the error and keeps the data already held. *)
Definition fetched {A : Type} (data : A) (entry : QueryResult A) : QueryResult A :=
  mkQuery (Some data) None false.

Definition failed {A : Type} (failure : Error) (entry : QueryResult A) : QueryResult A :=
  mkQuery (q_data entry) (Some failure) false.

(** The cache holds [entry] for the rate table of [USD], under every
    resolved target. *)
Definition usdEntries (entry : QueryResult ExchangeRateResponse)
  : string -> option string -> QueryResult ExchangeRateResponse :=
  fun base local =>
    if bool_decide (base = "USD") && Js.truthy_opt local then entry else idle.

(** Nothing fetched yet. *)
Definition emptyCache : QueryLayer :=
  {| geolocation := idle; exchangeRates := fun _ _ => idle |}.

(** No geolocation lookup made; the rate table is cached. *)
Definition ratesCached : QueryLayer :=
  {| geolocation := idle; exchangeRates := usdEntries (fetched rates idle) |}.

(** The geolocation lookup answered [currency]; the rate table is cached. *)
Definition located (currency : string) : QueryLayer :=
  {| geolocation := fetched (mkGeo currency None) idle;
     exchangeRates := usdEntries (fetched rates idle) |}.

(** The geolocation lookup failed; the rate table is cached. *)
Definition geoFailed : QueryLayer :=
  {| geolocation := failed geoFailure idle;
     exchangeRates := usdEntries (fetched rates idle) |}.

(** A refetch of the rate table failed: the cache keeps the stale table
    next to the error. *)
Definition refetchFailed : QueryLayer :=
  {| geolocation := idle;
     exchangeRates := usdEntries (failed rateFailure (fetched rates idle)) |}.

(** The provider quotes a rate of 0 for [EUR]. *)
Definition zeroRated : QueryLayer :=
  {| geolocation := idle; exchangeRates := usdEntries (fetched zeroRates idle) |}.

End Scenario.

(* ===================================================================== *)
(** * The two fetches (the [queryFn] of each [useQuery]) *)
(* ===================================================================== *)

(** What [await fetch(url)] resolves to, as far as a [queryFn] reads it:
    [ok], [status] and the outcome of [json()] (the parsed body, or the
    reason of its rejection). [status] is optional because the test doubles
    leave it out of their successful answers. *)
Record Response (B : Type) : Type := mkResponse {
  resp_ok : bool;
  resp_status : option N;
  resp_json : string + B;
}.
Arguments mkResponse {B} _ _ _.
Arguments resp_ok {B} _.
Arguments resp_status {B} _.
Arguments resp_json {B} _.

(** [fetch(url)] rejects (no connection) or resolves to a response. *)
Inductive FetchResult (B : Type) : Type :=
  | FetchRejected (reason : string)
  | FetchResolved (response : Response B).
Arguments FetchRejected {B} _.
Arguments FetchResolved {B} _.

(** The text of a template-literal hole holding [number | undefined]. *)
Definition interpolate_status (status : option N) : string :=
  match status with Some n => pretty n | None => "undefined" end.

(** [text || fallback] for [text : string | undefined]. *)
Definition or_text (text : option string) (fallback : string) : string :=
  match text with
  | Some s => if Js.truthy s then s else fallback
  | None => fallback
  end.

(** The body of a geolocation answer, with the fields of
    [GeolocationResponse]. *)
Record GeolocationBody : Type := mkGeoBody {
  gb_status : option string;
  gb_currency : string;
  gb_countryCode : option string;
  gb_message : option string;
}.

(** The body of a rate answer, with the fields of [ExchangeRateResponse]. *)
Record ExchangeRateBody : Type := mkRatesBody {
  rb_result : option string;
  rb_base_code : string;
  rb_conversion_rates : option (gmap string Js.number);
  rb_error_type : option string;
  rb_error_message : option string;
}.

(** The [queryFn] of the geolocation query, applied to the outcome of
    [fetch(geolocationUrl)]: the message of the [Error] it throws, or the
    data it returns. *)
Definition geolocation_queryFn (f : FetchResult GeolocationBody)
  : string + GeolocationResponse :=
  match f with
  | FetchRejected reason => inl reason
  | FetchResolved response =>
      if negb (resp_ok response)
      then inl ("Geolocation API error: " +:+ interpolate_status (resp_status response))
      else
        match resp_json response with
        | inl reason => inl reason
        | inr data =>
            if bool_decide (gb_status data = Some "fail")
            then inl (or_text (gb_message data) "Geolocation detection failed")
            else inr (mkGeo (gb_currency data) (gb_countryCode data))
        end
  end.

(** The [queryFn] of the rate query, applied to the outcome of
    [fetch(exchangeRateUrl apiKey upperBaseCurrency)]; [id] is the identity
    of the parsed body. *)
Definition exchangeRates_queryFn (id : nat) (f : FetchResult ExchangeRateBody)
  : string + ExchangeRateResponse :=
  match f with
  | FetchRejected reason => inl reason
  | FetchResolved response =>
      if negb (resp_ok response)
      then inl ("Exchange rate API error: " +:+ interpolate_status (resp_status response))
      else
        match resp_json response with
        | inl reason => inl reason
        | inr data =>
            if bool_decide (rb_result data = Some "error")
            then inl (or_text (rb_error_message data)
                        ("Exchange rate fetch failed: " +:+ interpolate (rb_error_type data)))
            else inr (mkRates (rb_base_code data) (rb_conversion_rates data) (QueryObj id))
        end
  end.

(** What an observer reports once the first fetch of its query has ended
    with [outcome]: the data, or the [Error] thrown (of identity [id]). *)
Definition settled {A : Type} (id : nat) (outcome : string + A) : QueryResult A :=
  match outcome with
  | inl reason => mkQuery None (Some (mkError reason (QueryObj id))) false
  | inr data => mkQuery (Some data) None false
  end.

(** ** More invariants of the reachable states *)

(** Once the currency effect has run without a manual currency on
    geolocation data that names a currency, the state holds that
    currency. *)
Definition geo_synced (st : HookState) : Prop :=
  forall manual geo,
    currencyEffect st = Some (manual, geo) ->
    Js.truthy_opt manual = false ->
    Js.truthy_opt geo = true ->
    st_localCurrency st = geo.

(** Nothing in a render can resolve the target currency: no manual
    currency is supplied and the geolocation data held, if any, names no
    currency. *)
Definition unresolvable (r : Render) : Prop :=
  Js.truthy_opt (upperManualCurrency (r_options r)) = false
  /\ Js.truthy_opt (geo_currency <$> q_data (geolocation (r_queries r))) = false.

(** The string holds a lowercase ASCII letter. *)
Fixpoint has_lower (s : string) : bool :=
  match s with
  | EmptyString => false
  | String c r => Js.is_lower c || has_lower r
  end.

(** [-x] *)
Definition negate (x : Js.number) : Js.number := SFopp x.

(** [x] is [+0] or [-0]. *)
Definition is_zero (x : Js.number) : bool :=
  match x with S754_zero _ => true | _ => false end.

(* ===================================================================== *)
(** * The component ([src/components/LocalizedPrice.tsx]) *)
(* ===================================================================== *)

(** A React node: one made by the caller, a [<span>] with an optional
    [title] around a text, or a fragment around a node. *)
Inductive Node : Type :=
  | Supplied (id : nat)
  | Span (title : option string) (text : string)
  | Fragment (child : Node).

(** [LocalizedPriceProps] *)
Record LocalizedPriceProps : Type := mkProps {
  lp_basePrice : Js.number;
  lp_baseCurrency : string;
  lp_apiKey : option string;
  lp_manualCurrency : option string;
  loadingComponent : option Node;
  errorComponent : option (Error -> Node);
  formatPrice : option (Js.number -> string -> string);
}.

(** The options of [Intl.NumberFormat]; [style] is always ['currency']. *)
Record NumberFormatOptions : Type := mkFormat {
  fmt_currency : string;
  minimumFractionDigits : option nat;
  maximumFractionDigits : option nat;
}.

(** The branch the component takes. *)
Inductive View : Type :=
  | LoadingView
  | FailureView (err : option Error)
  | PriceView (price : Js.number) (currency : string).

(** The outcome of rendering: a node, or an exception. *)
Inductive Rendered : Type :=
  | Shows (node : Node)
  | Throws.

(** The options the component passes to the hook: no callbacks. *)
Definition hook_options (p : LocalizedPriceProps) : Options :=
  {| basePrice := lp_basePrice p;
     opt_baseCurrency := lp_baseCurrency p;
     apiKey := lp_apiKey p;
     manualCurrency := lp_manualCurrency p;
     onSuccess := None;
     onError := None |}.

(** [loadingComponent = <span>...</span>] *)
Definition loading_node (p : LocalizedPriceProps) : Node :=
  default (Span None "...") (loadingComponent p).

(** The sequence of [if]s of the component body, on the result of the
    hook. *)
Definition view_of (p : LocalizedPriceProps) (r : CurrencyResult) : View :=
  if isLoading r then LoadingView
  else if bool_decide (is_Some (error r))
          || (bool_decide (convertedPrice r = None) && negb (isLoading r))
  then FailureView (error r)
  else
    match convertedPrice r with
    | None => LoadingView
    | Some price =>
        PriceView price
          (if Js.truthy_opt (localCurrency r) then default "" (localCurrency r)
           else lp_baseCurrency p)
    end.

Section Intl.

(** The platform: [`${x}`] on a Number, and
    [new Intl.NumberFormat(undefined, options).format(x)], which throws a
    [RangeError] on options it does not accept. *)
Variable numberToString : Js.number -> string.
Variable formatCurrency : NumberFormatOptions -> Js.number -> option string.

(** What each branch returns; [fresh] is the identity of the [Error] the
    component allocates when the hook reports none. *)
Definition render_view (p : LocalizedPriceProps) (fresh : ObjId) (v : View) : Rendered :=
  match v with
  | LoadingView => Shows (Fragment (loading_node p))
  | FailureView err =>
      match errorComponent p with
      | None =>
          match formatCurrency (mkFormat (lp_baseCurrency p) None None) (lp_basePrice p) with
          | Some text =>
              Shows (Span (Some ("Conversion failed, showing original price in "
                                 +:+ lp_baseCurrency p)) text)
          | None => Throws
          end
      | Some component =>
          Shows (Fragment (component (default (mkError "Conversion failed" fresh) err)))
      end
  | PriceView price currency =>
      let formattedPrice :=
        match formatPrice p with
        | Some format => Some (format price currency)
        | None => formatCurrency (mkFormat currency (Some 2%nat) (Some 2%nat)) price
        end in
      match formattedPrice with
      | Some text =>
          Shows (Span (Some ("Converted from " +:+ numberToString (lp_basePrice p)
                             +:+ " " +:+ lp_baseCurrency p)) text)
      | None => Throws
      end
  end.

(** One render of the component: the hook, then the branch taken. *)
Definition LocalizedPrice (p : LocalizedPriceProps) (fresh : ObjId)
    (q : QueryLayer) (st : HookState) : Rendered * HookState :=
  let out := useCurrencyConverter (hook_options p) q st in
  (render_view p fresh (view_of p (result_value (returned out))), state out).

End Intl.

(* ===================================================================== *)
(** * The test double of [fetch] ([tests/__mocks__/fetch.ts]) *)
(* ===================================================================== *)

(** [mockGeolocationResponse] *)
Definition mockGeolocationResponse : GeolocationBody :=
  {| gb_status := Some "success"; gb_currency := "USD";
     gb_countryCode := Some "US"; gb_message := None |}.

(** [mockExchangeRateResponse], with the fields the hook reads. *)
Definition mockExchangeRateResponse : ExchangeRateBody :=
  {| rb_result := Some "success";
     rb_base_code := "USD";
     rb_conversion_rates :=
       Some (<["USD" := Js.of_Z 1]> (<["EUR" := Js.hundredths 88]>
            (<["GBP" := Js.hundredths 74]> (<["JPY" := Js.of_Z 115]>
            (<["CAD" := Js.hundredths 127]> (<["AUD" := Js.hundredths 138]>
            (<["CHF" := Js.hundredths 92]> (<["CNY" := Js.hundredths 636]>
            (<["SEK" := Js.hundredths 905]> (<["NZD" := Js.hundredths 148]> ∅))))))))));
     rb_error_type := None;
     rb_error_message := None |}.

(** [createFetchMock()], applied to a URL. The three bodies it answers
    with are read by the caller at its own body type [B]. *)
Definition createFetchMock {B : Type} (geolocationJson exchangeRateJson notFoundJson : B)
    (url : string) : FetchResult B :=
  if includes "ipapi.co" url
  then FetchResolved (mkResponse true None (inr geolocationJson))
  else if includes "exchangerate-api.com" url
  then FetchResolved (mkResponse true None (inr exchangeRateJson))
  else FetchResolved (mkResponse false (Some 404%N) (inr notFoundJson)).

(* ===================================================================== *)
(** * Concrete uses of the component *)
(* ===================================================================== *)

Module Display.

(** [<LocalizedPrice basePrice={100} baseCurrency="USD" apiKey="test-api-key" />] *)
Definition props : LocalizedPriceProps :=
  {| lp_basePrice := Js.of_Z 100; lp_baseCurrency := "USD";
     lp_apiKey := Some "test-api-key"; lp_manualCurrency := None;
     loadingComponent := None; errorComponent := None; formatPrice := None |}.

(** The same with [baseCurrency="usd" manualCurrency="eur"]. *)
Definition manual : LocalizedPriceProps :=
  {| lp_basePrice := Js.of_Z 100; lp_baseCurrency := "usd";
     lp_apiKey := Some "test-api-key"; lp_manualCurrency := Some "eur";
     loadingComponent := None; errorComponent := None; formatPrice := None |}.

(** With [errorComponent={(error) => <span>Custom: {error.message}</span>}]. *)
Definition custom : LocalizedPriceProps :=
  {| lp_basePrice := Js.of_Z 100; lp_baseCurrency := "USD";
     lp_apiKey := Some "test-api-key"; lp_manualCurrency := None;
     loadingComponent := None;
     errorComponent := Some (fun e => Span None ("Custom: " +:+ message e));
     formatPrice := None |}.

(** A formatter that accepts the codes of three characters only. *)
Definition threeLetters (options : NumberFormatOptions) (x : Js.number) : option string :=
  if (String.length (fmt_currency options) =? 3)%nat then Some "formatted" else None.

Definition numberToString (x : Js.number) : string := "100".

(** The geolocation service answers with status 500. *)
Definition serverError : FetchResult GeolocationBody :=
  FetchResolved (mkResponse false (Some 500%N) (inr mockGeolocationResponse)).

(** The cache after that answer. *)
Definition geoRejected : QueryLayer :=
  {| geolocation := settled 1 (geolocation_queryFn serverError);
     exchangeRates := fun _ _ => idle |}.

(** The geolocation service answers without a currency. *)
Definition noCurrency : GeolocationBody :=
  {| gb_status := Some "success"; gb_currency := "";
     gb_countryCode := Some "AQ"; gb_message := None |}.

Definition geoWithoutCurrency : QueryLayer :=
  {| geolocation :=
       settled 0 (geolocation_queryFn
                    (FetchResolved (mkResponse true (Some 200%N) (inr noCurrency))));
     exchangeRates := fun _ _ => idle |}.

(** The rate service answers [{ result: 'error', error_type: 'invalid-key' }]. *)
Definition invalidKey : FetchResult ExchangeRateBody :=
  FetchResolved
    (mkResponse true (Some 200%N)
       (inr (mkRatesBody (Some "error") "" None (Some "invalid-key") None))).

Definition rateRejected : QueryLayer :=
  {| geolocation := idle;
     exchangeRates := fun _ _ => settled 7 (exchangeRates_queryFn 0 invalidKey) |}.

End Display.

(* ===================================================================== *)
(** * Lemmas on the JavaScript and React primitives *)
(* ===================================================================== *)

(** ** The primitives on concrete values *)

Example toUpperCase_usd : Js.toUpperCase "usd" = "USD".
Proof. reflexivity. Qed.

Example trim_spaces : Js.trim "  a b  " = "a b".
Proof. reflexivity. Qed.

Example blank_keys :
  keyIsBlank None = true /\ keyIsBlank (Some "") = true
  /\ keyIsBlank (Some "   ") = true /\ keyIsBlank (Some "test-api-key") = false.
Proof. repeat split. Qed.

(** [0.88] is the binary64 value [7926335344172073 * 2^-53]. *)
Example hundredths_88 : Js.hundredths 88 = S754_finite false 7926335344172073 (-53).
Proof. vm_compute. reflexivity. Qed.

(** [parseFloat((100 * 0.88).toFixed(2))] is [88]. *)
Example convert_100_at_088 : convert (Js.of_Z 100) (Js.hundredths 88) = Js.of_Z 88.
Proof. vm_compute. reflexivity. Qed.

(** [parseFloat((-50 * 1).toFixed(2))] is [-50]. *)
Example convert_negative : convert (Js.of_Z (-50)) (Js.of_Z 1) = Js.of_Z (-50).
Proof. vm_compute. reflexivity. Qed.

(** [(1.005).toFixed(2)] is ["1.00"]: the binary64 value lies below the tie. *)
Example toFixed2_1005 :
  Js.toFixed2 (SFdiv Js.prec Js.emax (S754_finite false 1005 0) (S754_finite false 1000 0))
  = Js.TextDecimal false 100.
Proof. vm_compute. reflexivity. Qed.

(** [(8.345).toFixed(2)] is ["8.35"]: the binary64 value lies above the tie. *)
Example toFixed2_8345 :
  Js.toFixed2 (SFdiv Js.prec Js.emax (S754_finite false 8345 0) (S754_finite false 1000 0))
  = Js.TextDecimal false 835.
Proof. vm_compute. reflexivity. Qed.

(** [(0.125).toFixed(2)] is ["0.13"] and [(-0.125).toFixed(2)] is ["-0.13"]:
    an exact tie goes away from zero. *)
Example toFixed2_tie :
  Js.toFixed2 (S754_finite false 4503599627370496 (-55)) = Js.TextDecimal false 13
  /\ Js.toFixed2 (S754_finite true 4503599627370496 (-55)) = Js.TextDecimal true 13.
Proof. vm_compute. split; reflexivity. Qed.

(** ** [useMemo] and [useEffect] *)

Lemma useMemo_spec {D V : Type} `{EqDecision D} (create : D -> nat -> V * nat)
    (cache : option (D * V)) (deps : D) (next : nat) :
  memo_coherent create cache ->
  exists n,
    (useMemo cache deps (create deps) next).1.1 = (create deps n).1
    /\ (useMemo cache deps (create deps) next).1.2
       = Some (deps, (create deps n).1).
Proof.
  intros Hc. unfold useMemo.
  destruct cache as [[d v]|].
  - destruct (decide (d = deps)) as [->|Hne].
    + destruct (Hc deps v eq_refl) as [n ->]. exists n. split; reflexivity.
    + exists next. destruct (create deps next); split; reflexivity.
  - exists next. destruct (create deps next); split; reflexivity.
Qed.

(** A memo whose dependencies are those of the previous render returns the
    very same object and allocates nothing. *)
Lemma useMemo_hit {D V : Type} `{EqDecision D} (create : nat -> V * nat)
    (deps : D) (v : V) (next : nat) :
  useMemo (Some (deps, v)) deps create next = (v, Some (deps, v), next).
Proof. unfold useMemo. destruct (decide (deps = deps)); [reflexivity | congruence]. Qed.

Lemma useMemo_cache {D V : Type} `{EqDecision D} (create : nat -> V * nat)
    (cache : option (D * V)) (deps : D) (next : nat) :
  (useMemo cache deps create next).1.2
  = Some (deps, (useMemo cache deps create next).1.1).
Proof.
  unfold useMemo. destruct cache as [[d v]|].
  - destruct (decide (d = deps)) as [->|]; [reflexivity|].
    destruct (create next); reflexivity.
  - destruct (create next); reflexivity.
Qed.

Lemma effect_due_same {D : Type} `{EqDecision D} (deps : D) :
  effect_due (Some deps) deps = false.
Proof. unfold effect_due. rewrite bool_decide_eq_true_2; reflexivity. Qed.

(** ** One render, field by field *)

Lemma render_fields (o : Options) (q : QueryLayer) (st : HookState) :
  useCurrencyConverter o q st =
  {| returned := (slot_result o q st).1.1;
     state :=
       {| st_localCurrency :=
            if effect_due (currencyEffect st) (render_currencyDeps o q)
            then currencyEffect_body (upperManualCurrency o)
                   (geo_currency <$> q_data (geolocation q)) (st_localCurrency st)
            else st_localCurrency st;
          onSuccessRef := onSuccess o;
          onErrorRef := onError o;
          apiKeyMemo := (slot_apiKeyError o st).1.2;
          mismatchMemo := (slot_mismatch o q st).1.2;
          resultMemo := (slot_result o q st).1.2;
          currencyEffect := Some (render_currencyDeps o q);
          successEffect := Some (render_successDeps o q st);
          errorEffect := Some (render_errorDeps o q st);
          nextId := (slot_result o q st).2 |};
     calls := success_calls o q st ++ error_calls o q st;
     geolocationQuery :=
       {| queryKey := [Some "geolocation"];
          requestUrl := geolocationUrl;
          enabled := negb (Js.truthy_opt (upperManualCurrency o))
                     && negb (bool_decide (is_Some (slot_apiKeyError o st).1.1)) |};
     exchangeQuery :=
       {| queryKey := [Some "exchange-rates"; Some (upperBaseCurrency o);
                       st_localCurrency st];
          requestUrl := exchangeRateUrl (apiKey o) (upperBaseCurrency o);
          enabled := Js.truthy_opt (st_localCurrency st)
                     && negb (bool_decide (is_Some (slot_apiKeyError o st).1.1)) |} |}.
Proof.
  unfold useCurrencyConverter, success_calls, error_calls, render_successDeps,
    render_errorDeps, render_currencyDeps, slot_result, render_resultDeps,
    render_converted, render_error, slot_mismatch, slot_apiKeyError,
    render_isLoading, render_rate, render_exchange.
  destruct (useMemo (apiKeyMemo st) _ _ _) as [[kv kc] n1]; cbn [fst snd].
  destruct (useMemo (mismatchMemo st) _ _ _) as [[mv mc] n2]; cbn [fst snd].
  destruct (useMemo (resultMemo st) _ _ _) as [[rv rc] n3]; cbn [fst snd].
  reflexivity.
Qed.

(** ** Invariants of the reachable states *)

Lemma coherent_mount (o : Options) : coherent (mount o).
Proof. repeat split; intros d v H; discriminate H. Qed.

Lemma memo_coherent_after {D V : Type} `{EqDecision D} (create : D -> nat -> V * nat)
    (cache : option (D * V)) (deps : D) (next : nat) :
  memo_coherent create cache ->
  memo_coherent create (useMemo cache deps (create deps) next).1.2.
Proof.
  intros Hc. destruct (useMemo_spec create cache deps next Hc) as [n [Hv Hk]].
  rewrite Hk. intros d v Heq. injection Heq as <- <-. exists n. reflexivity.
Qed.

Lemma coherent_render (o : Options) (q : QueryLayer) (st : HookState) :
  coherent st -> coherent (state (useCurrencyConverter o q st)).
Proof.
  intros (Hk & Hm & Hr). rewrite render_fields. cbn [state apiKeyMemo mismatchMemo resultMemo].
  unfold coherent; cbn [apiKeyMemo mismatchMemo resultMemo].
  split; [|split].
  - apply memo_coherent_after, Hk.
  - apply (memo_coherent_after mismatch_create), Hm.
  - apply (memo_coherent_after result_create), Hr.
Qed.

Lemma reachable_coherent (st : HookState) : reachable st -> coherent st.
Proof.
  induction 1 as [o | o q st _ IH].
  - apply coherent_mount.
  - apply coherent_render, IH.
Qed.

Lemma reachable_run_state (st : HookState) (rs : list Render) :
  reachable st -> reachable (run_state st rs).
Proof.
  revert st. induction rs as [|r rs IH]; intros st Hst; cbn [run_state].
  - exact Hst.
  - apply IH. constructor. exact Hst.
Qed.

(** A property of every render from a reachable state under a condition on
    the options holds along every run whose renders meet the condition. *)
Lemma run_Forall (P : Options -> Prop) (R : RenderOut -> Prop) :
  (forall o q st, reachable st -> P o -> R (useCurrencyConverter o q st)) ->
  forall rs st,
    reachable st ->
    Forall (fun r => P (r_options r)) rs ->
    Forall R (run st rs).
Proof.
  intros Hstep rs. induction rs as [|r rs IH]; intros st Hst Hrs; cbn [run].
  - constructor.
  - inversion Hrs as [|? ? Hr Hrest]; subst. constructor.
    + apply Hstep; assumption.
    + apply IH; [constructor; exact Hst | exact Hrest].
Qed.

(** On a coherent state the memo slots hold what their bodies compute and
    the returned object carries the values of this render. *)
Lemma render_slots (o : Options) (q : QueryLayer) (st : HookState) :
  coherent st ->
  exists keyId misId,
    (slot_apiKeyError o st).1.1 = (apiKeyError_create (apiKey o) keyId).1
    /\ (slot_mismatch o q st).1.1
       = (mismatch_create
            (st_localCurrency st,
             q_data (render_exchange o q (st_localCurrency st))) misId).1
    /\ result_value (returned (useCurrencyConverter o q st))
       = {| convertedPrice := render_converted o q st;
            localCurrency := st_localCurrency st;
            baseCurrency := upperBaseCurrency o;
            exchangeRate := rate_or_null (render_rate o q (st_localCurrency st));
            isLoading := render_isLoading o q (st_localCurrency st);
            error := render_error o q st |}.
Proof.
  intros (Hk & Hm & Hr).
  destruct (useMemo_spec apiKeyError_create _ (apiKey o) (nextId st) Hk) as [k [Hkv _]].
  destruct (useMemo_spec mismatch_create _
              (st_localCurrency st, q_data (render_exchange o q (st_localCurrency st)))
              (slot_apiKeyError o st).2 Hm) as [m [Hmv _]].
  destruct (useMemo_spec result_create _ (render_resultDeps o q st)
              (slot_mismatch o q st).2 Hr) as [r [Hrv _]].
  exists k, m. split; [exact Hkv|]. split; [exact Hmv|].
  rewrite render_fields. cbn [returned].
  fold (slot_result o q st) in Hrv. rewrite Hrv. reflexivity.
Qed.

Lemma apiKeyError_present (key : option string) (n : nat) :
  bool_decide (is_Some (apiKeyError_create key n).1) = keyIsBlank key.
Proof.
  unfold apiKeyError_create. destruct (keyIsBlank key); reflexivity.
Qed.

(** On a coherent state both observers are gated by the key check. *)
Lemma render_enabled (o : Options) (q : QueryLayer) (st : HookState) :
  coherent st ->
  enabled (geolocationQuery (useCurrencyConverter o q st))
  = negb (Js.truthy_opt (upperManualCurrency o)) && negb (keyIsBlank (apiKey o))
  /\ enabled (exchangeQuery (useCurrencyConverter o q st))
     = Js.truthy_opt (st_localCurrency st) && negb (keyIsBlank (apiKey o)).
Proof.
  intros Hc. destruct (render_slots o q st Hc) as (k & m & Hk & _ & _).
  rewrite render_fields. cbn [geolocationQuery exchangeQuery enabled].
  rewrite Hk, apiKeyError_present. split; reflexivity.
Qed.

(** ** Strings *)

Lemma append_empty (t : string) : "" +:+ t = t.
Proof. reflexivity. Qed.

Lemma append_String (c : ascii) (s t : string) : String c s +:+ t = String c (s +:+ t).
Proof. reflexivity. Qed.

Lemma prefix_append (s t : string) : String.prefix s (s +:+ t) = true.
Proof.
  induction s as [|c s IH].
  - rewrite append_empty. destruct t; reflexivity.
  - rewrite append_String. simpl.
    destruct (Ascii.ascii_dec c c); [exact IH | congruence].
Qed.

Lemma includes_prefix (needle hay : string) :
  String.prefix needle hay = true -> includes needle hay = true.
Proof. intros H. destruct hay; simpl in *; rewrite H; reflexivity. Qed.

Lemma includes_append (needle before after : string) :
  includes needle (before +:+ needle +:+ after) = true.
Proof.
  induction before as [|c b IH].
  - rewrite append_empty. apply includes_prefix, prefix_append.
  - rewrite append_String. cbn [includes]. rewrite IH. apply orb_true_r.
Qed.

Lemma append_assoc (a b c : string) : (a +:+ b) +:+ c = a +:+ b +:+ c.
Proof.
  induction a as [|x a IH].
  - reflexivity.
  - rewrite !append_String, IH. reflexivity.
Qed.

Lemma mismatchMessage_names (code : string) :
  includes ("'" +:+ code +:+ "'") (mismatchMessage code) = true.
Proof.
  unfold mismatchMessage.
  replace ("Currency '" +:+ code +:+
           "' was detected from your location but is not supported by the exchange rate provider.")
    with ("Currency " +:+ ("'" +:+ code +:+ "'") +:+
          " was detected from your location but is not supported by the exchange rate provider.").
  - apply includes_append.
  - rewrite <- (append_assoc "'" _ "'"), !append_assoc. reflexivity.
Qed.

(** ** What a render computes *)

Lemma mismatch_create_spec (local : option string)
    (response : option ExchangeRateResponse) (n : nat) :
  (mismatch_create (local, response) n).1
  = if mismatch_applies local response
    then Some (mkError (mismatchMessage (default "" local)) (HookObj n))
    else None.
Proof.
  unfold mismatch_create, mismatch_applies.
  destruct local as [code|], response as [r|]; try reflexivity.
  destruct (conversion_rates r) as [rates|]; [|reflexivity].
  destruct (Js.truthy code && negb (has_rate rates code)); reflexivity.
Qed.

Lemma apiKeyError_create_spec (key : option string) (n : nat) :
  (apiKeyError_create key n).1
  = if keyIsBlank key then Some (mkError apiKeyMissing (HookObj n)) else None.
Proof. unfold apiKeyError_create. destruct (keyIsBlank key); reflexivity. Qed.

(** What a render on a reachable state computes, source by source. *)
Lemma render_sources (o : Options) (q : QueryLayer) (st : HookState) :
  reachable st ->
  exists keyId misId,
    credentialError o st
    = (if keyIsBlank (apiKey o) then Some (mkError apiKeyMissing (HookObj keyId)) else None)
    /\ mismatchError o q st
       = (if mismatch_applies (st_localCurrency st) (rateResponse o q st)
          then Some (mkError (mismatchMessage (default "" (st_localCurrency st)))
                       (HookObj misId))
          else None)
    /\ snapshot o q st =
       {| convertedPrice :=
            convertedPrice_of (basePrice o)
              (exchangeRate_of (st_localCurrency st) (rateResponse o q st))
              (mismatchError o q st);
          localCurrency := st_localCurrency st;
          baseCurrency := upperBaseCurrency o;
          exchangeRate :=
            rate_or_null (exchangeRate_of (st_localCurrency st) (rateResponse o q st));
          isLoading :=
            q_isLoading (geolocation q)
            || (q_isLoading (exchangeRates q (upperBaseCurrency o) (st_localCurrency st))
                && Js.truthy_opt (st_localCurrency st));
          error :=
            or_else (geolocationError q)
              (or_else (rateFetchError o q st)
                 (or_else (mismatchError o q st) (credentialError o st))) |}.
Proof.
  intros Hr. apply reachable_coherent in Hr.
  destruct (render_slots o q st Hr) as (k & m & Hk & Hm & Hv).
  exists k, m. unfold credentialError, mismatchError, snapshot.
  rewrite Hv. unfold render_converted, render_error, render_rate, render_isLoading,
    render_exchange, rateResponse, geolocationError, rateFetchError.
  rewrite Hk, Hm, apiKeyError_create_spec, mismatch_create_spec.
  repeat split.
Qed.

(** [localCurrency] is [null] or a non-empty string. *)
Lemma or_null_truthy (o : option string) (c : string) :
  Js.or_null o = Some c -> Js.truthy c = true.
Proof.
  unfold Js.or_null. destruct o as [s|]; cbn.
  - destruct (Js.truthy s) eqn:E; [|discriminate]. intros [= <-]. exact E.
  - discriminate.
Qed.

Lemma currencyEffect_body_truthy (manual geo current : option string) (c : string) :
  (forall c', current = Some c' -> Js.truthy c' = true) ->
  currencyEffect_body manual geo current = Some c -> Js.truthy c = true.
Proof.
  intros Hcur. unfold currencyEffect_body.
  destruct (Js.truthy_opt manual) eqn:Em.
  - intros ->. exact Em.
  - destruct (Js.truthy_opt geo) eqn:Eg.
    + intros ->. exact Eg.
    + apply Hcur.
Qed.

Lemma reachable_local_truthy (st : HookState) (c : string) :
  reachable st -> st_localCurrency st = Some c -> Js.truthy c = true.
Proof.
  intros Hr. revert c. induction Hr as [o | o q st _ IH]; intros c.
  - cbn. apply or_null_truthy.
  - rewrite render_fields. cbn [state st_localCurrency].
    destruct (effect_due _ _).
    + apply currencyEffect_body_truthy, IH.
    + apply IH.
Qed.

Lemma keyIsBlank_iff (key : option string) :
  keyIsBlank key = true <-> key = None \/ exists k, key = Some k /\ Js.trim k = "".
Proof.
  unfold keyIsBlank. destruct key as [k|].
  - rewrite orb_true_iff, bool_decide_eq_true. split.
    + intros [H|H]; right; exists k; split; try reflexivity; try exact H.
      destruct k; [reflexivity | discriminate H].
    + intros [H|(k' & [= <-] & H)]; [discriminate | right; exact H].
  - split; [left; reflexivity | reflexivity].
Qed.

(* ===================================================================== *)
(** * The scenarios of the test suite *)
(* ===================================================================== *)

(** Geolocation answers [USD] for a price in [USD]: 100 at rate 1. *)
Example scenario_same_currency :
  let o := Scenario.request in
  let q := Scenario.located "USD" in
  result_value ∘ returned <$> last (run (mount o) [mkRender o q; mkRender o q])
  = Some {| convertedPrice := Some (Js.of_Z 100);
            localCurrency := Some "USD";
            baseCurrency := "USD";
            exchangeRate := Some (Quoted (Js.of_Z 1));
            isLoading := false;
            error := None |}.
Proof. vm_compute. reflexivity. Qed.

(** Geolocation answers [EUR], quoted at 0.88: 88. *)
Example scenario_detected_currency :
  let o := Scenario.request in
  let q := Scenario.located "EUR" in
  result_value ∘ returned <$> last (run (mount o) [mkRender o q; mkRender o q])
  = Some {| convertedPrice := Some (Js.of_Z 88);
            localCurrency := Some "EUR";
            baseCurrency := "USD";
            exchangeRate := Some (Quoted (Js.hundredths 88));
            isLoading := false;
            error := None |}.
Proof. vm_compute. reflexivity. Qed.

(** [manualCurrency: 'GBP'], quoted at 0.74: 74 at the first render, the
    geolocation observer disabled, [onSuccess] invoked. *)
Example scenario_manual_currency :
  let o := Scenario.with_manual "GBP" Scenario.request in
  let out := useCurrencyConverter o Scenario.ratesCached (mount o) in
  convertedPrice (result_value (returned out)) = Some (Js.of_Z 74)
  /\ localCurrency (result_value (returned out)) = Some "GBP"
  /\ enabled (geolocationQuery out) = false
  /\ calls out = [CallOnSuccess 1%nat (returned out)].
Proof. vm_compute. repeat split. Qed.

(** [apiKey: '']: the credential error at once, nothing loading, no request
    allowed, [onError] invoked. *)
Example scenario_missing_key :
  let o := Scenario.with_key (Some "") Scenario.request in
  let out := useCurrencyConverter o Scenario.emptyCache (mount o) in
  message <$> error (result_value (returned out)) = Some apiKeyMissing
  /\ isLoading (result_value (returned out)) = false
  /\ allowed_requests out = []
  /\ calls out = [CallOnError 2%nat (mkError apiKeyMissing (HookObj 0))].
Proof. vm_compute. repeat split. Qed.

(** Geolocation answers [XYZ], which the table lacks: the mismatch error,
    no price, [localCurrency] equal to [XYZ]. *)
Example scenario_unsupported_currency :
  let o := Scenario.request in
  let q := Scenario.located "XYZ" in
  (fun out => (message <$> error (result_value (returned out)),
               convertedPrice (result_value (returned out)),
               localCurrency (result_value (returned out))))
  <$> last (run (mount o) [mkRender o q; mkRender o q])
  = Some (Some (mismatchMessage "XYZ"), None, Some "XYZ").
Proof. vm_compute. reflexivity. Qed.

(* ===================================================================== *)
(** * Error precedence *)
(* ===================================================================== *)

(** The order in which the [error] field consults its sources, on every
    render: geolocation error, rate-fetch error, currency-mismatch error,
    credential error; the credential error is present exactly when the
    access key is blank and the mismatch error exactly when the resolved
    currency is no property of the rate table held. *)
Lemma error_field_order (o : Options) (q : QueryLayer) (st : HookState) :
  reachable st ->
  error (snapshot o q st)
  = first_present [geolocationError q; rateFetchError o q st;
                   mismatchError o q st; credentialError o st]
  /\ (is_Some (credentialError o st) <-> keyIsBlank (apiKey o) = true)
  /\ (is_Some (mismatchError o q st)
      <-> mismatch_applies (st_localCurrency st) (rateResponse o q st) = true).
Proof.
  intros Hr. destruct (render_sources o q st Hr) as (k & m & Hk & Hm & Hs).
  rewrite Hs. cbn [error first_present]. split; [|split].
  - destruct (geolocationError q), (rateFetchError o q st),
      (mismatchError o q st), (credentialError o st); reflexivity.
  - rewrite Hk. destruct (keyIsBlank (apiKey o)).
    + split; eauto.
    + split; [intros [? ?]; discriminate | discriminate].
  - rewrite Hm. destruct (mismatch_applies _ _).
    + split; eauto.
    + split; [intros [? ?]; discriminate | discriminate].
Qed.

(** C1 (the code against the claim): a blank key, a target set by hand,
    and a cache in which the refetch of the rate table failed. The
    credential error and the rate-fetch error are both present; the
    snapshot reports the rate-fetch error and [onError] is invoked with
    it, whereas the claim, and with it the comment on the key check
    ("pre-emptive API key validation") and the test of the missing key,
    put the credential error first. *)
Theorem C1_credential_error_reported_last :
  let o := Scenario.with_key (Some "") (Scenario.with_manual "EUR" Scenario.request) in
  let q := Scenario.refetchFailed in
  let st := mount o in
  message <$> credentialError o st = Some apiKeyMissing
  /\ rateFetchError o q st = Some Scenario.rateFailure
  /\ error (snapshot o q st) = Some Scenario.rateFailure
  /\ calls (useCurrencyConverter o q st) = [CallOnError 2%nat Scenario.rateFailure]
  /\ error (snapshot o q st)
     <> first_present [credentialError o st; geolocationError q;
                       rateFetchError o q st; mismatchError o q st].
Proof.
  cbv zeta. split; [|split; [|split; [|split]]].
  - vm_compute. reflexivity.
  - vm_compute. reflexivity.
  - vm_compute. reflexivity.
  - vm_compute. reflexivity.
  - vm_compute. intros H. discriminate H.
Qed.

(* ===================================================================== *)
(** * The converted price *)
(* ===================================================================== *)

Lemma has_rate_own (rates : gmap string Js.number) (code : string) (rate : Js.number) :
  rates !! code = Some rate -> has_rate rates code = true.
Proof.
  intros H. unfold has_rate. rewrite bool_decide_eq_true_2 by eauto. reflexivity.
Qed.

Lemma has_rate_iff (rates : gmap string Js.number) (code : string) :
  has_rate rates code = true <-> is_Some (rates !! code) \/ inherited code = true.
Proof. unfold has_rate. rewrite orb_true_iff, bool_decide_eq_true. reflexivity. Qed.

(** A function or an object in the place of the rate makes the product
    [NaN]. *)
Lemma convert_nan (price : Js.number) : convert price S754_nan = S754_nan.
Proof. destruct price; reflexivity. Qed.

(** A price is computed exactly when the resolved currency is a property
    of the table held (its own, with a rate, or an inherited one),
    whatever the loading and error state. *)
Lemma converted_iff_rate_found (o : Options) (q : QueryLayer) (st : HookState) :
  reachable st ->
  is_Some (convertedPrice (snapshot o q st))
  <-> exists code response rates,
        st_localCurrency st = Some code
        /\ rateResponse o q st = Some response
        /\ conversion_rates response = Some rates
        /\ (is_Some (rates !! code) \/ inherited code = true).
Proof.
  intros Hr. destruct (render_sources o q st Hr) as (k & m & _ & Hm & Hs).
  rewrite Hs. cbn [convertedPrice]. rewrite Hm.
  unfold mismatch_applies, exchangeRate_of.
  destruct (st_localCurrency st) as [code|] eqn:El.
  2:{ cbn. split; [intros [? ?]; discriminate | intros (? & ? & ? & ? & _); discriminate]. }
  pose proof (reachable_local_truthy st code Hr El) as Ht.
  destruct (rateResponse o q st) as [response|].
  2:{ cbn. split; [intros [? ?]; discriminate | intros (? & ? & ? & _ & ? & _); discriminate]. }
  destruct (conversion_rates response) as [rates|] eqn:Ec.
  2:{ cbn. split; [intros [? ?]; discriminate
                  | intros (? & r' & ? & _ & [= <-] & ? & _); congruence]. }
  rewrite Ht. cbn [andb]. unfold has_rate.
  destruct (rates !! code) as [rate|] eqn:Erate.
  - rewrite bool_decide_eq_true_2 by eauto. cbn. split; [|eauto].
    intros _. exists code, response, rates. eauto 6.
  - rewrite bool_decide_eq_false_2 by (intros [? ?]; discriminate).
    destruct (inherited code) eqn:Ei; cbn.
    + split; [|eauto]. intros _. exists code, response, rates. auto.
    + split; [intros [? H]; discriminate H|].
      intros (c' & r' & t' & [= <-] & [= <-] & Ht' & Hx).
      assert (t' = rates) as -> by congruence.
      destruct Hx as [[? Hx] | Hx]; congruence.
Qed.

(** The price computed: the base price converted at the rate quoted for
    the resolved currency, or [NaN] when the table only inherits a
    property of that name. *)
Lemma converted_sources (o : Options) (q : QueryLayer) (st : HookState)
    (price : Js.number) :
  reachable st ->
  convertedPrice (snapshot o q st) = Some price ->
  exists code response rates,
    st_localCurrency st = Some code
    /\ rateResponse o q st = Some response
    /\ conversion_rates response = Some rates
    /\ ((exists rate, rates !! code = Some rate /\ price = convert (basePrice o) rate)
        \/ (rates !! code = None /\ inherited code = true /\ price = S754_nan)).
Proof.
  intros Hr. destruct (render_sources o q st Hr) as (k & m & _ & Hm & Hs).
  rewrite Hs. cbn [convertedPrice]. rewrite Hm.
  unfold mismatch_applies, exchangeRate_of, has_rate.
  destruct (st_localCurrency st) as [code|] eqn:El; [|discriminate].
  destruct (rateResponse o q st) as [response|] eqn:Eresp; [|discriminate].
  destruct (conversion_rates response) as [rates|] eqn:Ec; [|discriminate].
  destruct (Js.truthy code); [|discriminate]. cbn [andb].
  destruct (rates !! code) as [rate|] eqn:Erate.
  - rewrite bool_decide_eq_true_2 by eauto. cbn. intros [= <-].
    exists code, response, rates.
    split; [done|]. split; [done|]. split; [done|].
    left. exists rate. split; [exact Erate | reflexivity].
  - rewrite bool_decide_eq_false_2 by (intros [? ?]; discriminate).
    destruct (inherited code) eqn:Ei; cbn; [|discriminate].
    rewrite convert_nan. intros [= <-].
    exists code, response, rates.
    split; [done|]. split; [done|]. split; [done|].
    right. split; [exact Erate|]. split; [exact Ei | reflexivity].
Qed.

(** C3 (the code against the claim): after a failed refetch the rate
    cache keeps the stale table next to the error; the snapshot then
    carries a converted price together with a non-null error, so a
    non-null [convertedPrice] does not imply a null [error]. *)
Theorem C3_converted_price_with_error :
  let o := Scenario.with_manual "EUR" Scenario.request in
  let outs := run (mount o) [mkRender o Scenario.ratesCached;
                            mkRender o Scenario.refetchFailed] in
  (result_value ∘ returned) <$> last outs
  = Some {| convertedPrice := Some (Js.of_Z 88);
            localCurrency := Some "EUR";
            baseCurrency := "USD";
            exchangeRate := Some (Quoted (Js.hundredths 88));
            isLoading := false;
            error := Some Scenario.rateFailure |}.
Proof. vm_compute. reflexivity. Qed.

(* ===================================================================== *)
(** * Credential validation *)
(* ===================================================================== *)

(** With a blank key every render holds the credential error and disables
    both observers, so that no request of either kind is allowed, on every
    reachable state and along every run. *)
Lemma blank_key_stops_requests :
  (forall o q st,
     reachable st ->
     key_absent_or_blank (apiKey o) ->
     let out := useCurrencyConverter o q st in
     allowed_requests out = []
     /\ enabled (geolocationQuery out) = false
     /\ enabled (exchangeQuery out) = false
     /\ exists e,
          credentialError o st = Some e
          /\ message e = apiKeyMissing
          /\ includes "API key is missing" (message e) = true
          /\ includes "exchangerate-api.com" (message e) = true)
  /\ (forall st rs,
        reachable st ->
        Forall (fun r => key_absent_or_blank (apiKey (r_options r))) rs ->
        Forall (fun out => allowed_requests out = []) (run st rs)).
Proof.
  assert (Hstep : forall o q st,
            reachable st -> key_absent_or_blank (apiKey o) ->
            allowed_requests (useCurrencyConverter o q st) = []
            /\ enabled (geolocationQuery (useCurrencyConverter o q st)) = false
            /\ enabled (exchangeQuery (useCurrencyConverter o q st)) = false).
  { intros o q st Hr Hkey.
    pose proof (proj2 (keyIsBlank_iff (apiKey o)) Hkey) as Hblank.
    destruct (render_enabled o q st (reachable_coherent st Hr)) as [Hg He].
    rewrite Hblank in Hg, He. rewrite andb_false_r in Hg, He.
    unfold allowed_requests. rewrite Hg, He. repeat split. }
  split.
  - intros o q st Hr Hkey out.
    destruct (Hstep o q st Hr Hkey) as (Hreq & Hg & He).
    split; [exact Hreq|]. split; [exact Hg|]. split; [exact He|].
    pose proof (proj2 (keyIsBlank_iff (apiKey o)) Hkey) as Hblank.
    destruct (render_sources o q st Hr) as (k & m & Hk & _ & Hs).
    rewrite Hblank in Hk. eexists. split; [exact Hk|]. cbn [message].
    split; [reflexivity|]. split; reflexivity.
  - intros st rs Hr Hrs.
    apply (run_Forall (fun o => key_absent_or_blank (apiKey o))
             (fun out => allowed_requests out = [])); try assumption.
    intros o q st' Hr' Hkey. apply (Hstep o q st' Hr' Hkey).
Qed.

(** C4 (the code against the claim): a fresh instance with a blank key
    over a cache that holds a failed geolocation lookup. The credential
    error is produced, no request is allowed and nothing is loading, yet
    the very first snapshot, and the call of [onError], carry the
    geolocation error, whose message does not mention the key: the
    instance does not settle with the credential error. *)
Theorem C4_blank_key_reports_cached_error :
  let blank := Scenario.with_key (Some "") Scenario.request in
  let out := useCurrencyConverter blank Scenario.geoFailed (mount blank) in
  keyIsBlank (apiKey blank) = true
  /\ message <$> credentialError blank (mount blank) = Some apiKeyMissing
  /\ allowed_requests out = []
  /\ isLoading (result_value (returned out)) = false
  /\ error (result_value (returned out)) = Some Scenario.geoFailure
  /\ includes "API key is missing" (message Scenario.geoFailure) = false
  /\ calls out = [CallOnError 2%nat Scenario.geoFailure].
Proof. vm_compute. repeat split. Qed.

(* ===================================================================== *)
(** * Currency mismatch *)
(* ===================================================================== *)

(** C5 (as amended): the mismatch check yields nothing while the resolved
    currency or the rate table is missing; when the resolved currency is
    neither a key of the rate table held nor the name of a property every
    object inherits, a mismatch error naming that code is produced,
    [convertedPrice] is null and [localCurrency] is the unsupported code;
    with a key that is not blank, the snapshot reports the mismatch error
    whenever no geolocation error and no rate-fetch error is present. *)
Theorem C5_currency_mismatch (o : Options) (q : QueryLayer) (st : HookState) :
  reachable st ->
  (st_localCurrency st = None \/ rateResponse o q st = None ->
   mismatchError o q st = None)
  /\ forall code response rates,
       st_localCurrency st = Some code ->
       rateResponse o q st = Some response ->
       conversion_rates response = Some rates ->
       rates !! code = None ->
       inherited code = false ->
       exists e,
         mismatchError o q st = Some e
         /\ message e = mismatchMessage code
         /\ includes ("'" +:+ code +:+ "'") (message e) = true
         /\ convertedPrice (snapshot o q st) = None
         /\ localCurrency (snapshot o q st) = Some code
         /\ (keyIsBlank (apiKey o) = false ->
             geolocationError q = None -> rateFetchError o q st = None ->
             error (snapshot o q st) = Some e).
Proof.
  intros Hr. destruct (render_sources o q st Hr) as (k & m & _ & Hm & Hs). split.
  - intros Hpending. rewrite Hm. unfold mismatch_applies.
    destruct Hpending as [-> | ->]; [reflexivity|].
    destruct (st_localCurrency st); reflexivity.
  - intros code response rates Hl Hd Hc Hmiss Hown.
    pose proof (reachable_local_truthy st code Hr Hl) as Ht.
    assert (Happ : mismatch_applies (st_localCurrency st) (rateResponse o q st) = true).
    { rewrite Hl, Hd. unfold mismatch_applies, has_rate. rewrite Hc, Ht, Hmiss, Hown.
      rewrite bool_decide_eq_false_2 by (intros [? ?]; discriminate). reflexivity. }
    rewrite Happ, Hl in Hm. cbn [default] in Hm.
    eexists. split; [exact Hm|]. cbn [message].
    split; [reflexivity|]. split; [apply mismatchMessage_names|].
    rewrite Hs. cbn [convertedPrice localCurrency error]. rewrite Hm, Hl, Hd.
    split; [|split; [reflexivity|]].
    + unfold exchangeRate_of. rewrite Hc, Ht, Hmiss, Hown. reflexivity.
    + intros _ -> ->. reflexivity.
Qed.

Lemma C5_currency_mismatch_witness :
  let o := Scenario.request in
  let q := Scenario.located "XYZ" in
  let st := state (useCurrencyConverter o q (mount o)) in
  reachable st
  /\ st_localCurrency st = Some "XYZ"
  /\ rateResponse o q st = Some Scenario.rates
  /\ Scenario.table !! "XYZ" = None
  /\ inherited "XYZ" = false
  /\ exists e, mismatchError o q st = Some e
               /\ message e = mismatchMessage "XYZ"
               /\ error (snapshot o q st) = Some e.
Proof.
  cbv zeta.
  assert (Hr : reachable (state (useCurrencyConverter Scenario.request
                                   (Scenario.located "XYZ") (mount Scenario.request)))).
  { do 2 constructor. }
  split; [exact Hr|]. split; [reflexivity|]. split; [reflexivity|].
  split; [vm_compute; reflexivity|]. split; [vm_compute; reflexivity|].
  destruct (C5_currency_mismatch Scenario.request (Scenario.located "XYZ") _ Hr) as [_ H].
  destruct (H "XYZ" Scenario.rates Scenario.table eq_refl eq_refl eq_refl eq_refl eq_refl)
    as (e & He & Hm & _ & _ & _ & Herr).
  exists e. split; [exact He|]. split; [exact Hm|]. apply Herr; reflexivity.
Defined.

(** The target currency [XYZ] is set by hand and is not in the fetched
    table, while the cache still holds a failed geolocation lookup: the
    snapshot carries the geolocation error, whose message does not name
    [XYZ], not a mismatch error. *)
Lemma C5_counterexample :
  let o := Scenario.with_manual "XYZ" Scenario.request in
  let q := Scenario.geoFailed in
  let st := mount o in
  st_localCurrency st = Some "XYZ"
  /\ rateResponse o q st = Some Scenario.rates
  /\ rateFetchError o q st = None
  /\ Scenario.table !! "XYZ" = None
  /\ error (snapshot o q st) = Some Scenario.geoFailure
  /\ includes "XYZ" (message Scenario.geoFailure) = false.
Proof. vm_compute. repeat split. Qed.

(* ===================================================================== *)
(** * Resolution of the target currency *)
(* ===================================================================== *)

Lemma toUpperCase_truthy (s : string) : Js.truthy (Js.toUpperCase s) = Js.truthy s.
Proof. destruct s; reflexivity. Qed.

Lemma truthy_nonempty (s : string) : s <> "" -> Js.truthy s = true.
Proof. destruct s; [congruence | reflexivity]. Qed.

Lemma reachable_currency_synced (st : HookState) : reachable st -> currency_synced st.
Proof.
  induction 1 as [o | o q st _ IH]; intros manual geo.
  - discriminate.
  - rewrite render_fields. cbn [state currencyEffect st_localCurrency].
    unfold render_currencyDeps. intros [= <- <-] Ht.
    destruct (effect_due _ _) eqn:Edue.
    + unfold currencyEffect_body. rewrite Ht. reflexivity.
    + unfold effect_due in Edue.
      destruct (currencyEffect st) as [[m g]|] eqn:Ed; [|discriminate].
      apply negb_false_iff, bool_decide_eq_true in Edue. injection Edue as -> ->.
      apply (IH _ _ Ed Ht).
Qed.

Lemma request_urls_differ (key : option string) (base : string) :
  exchangeRateUrl key base <> geolocationUrl.
Proof. unfold exchangeRateUrl, geolocationUrl. rewrite !append_String. discriminate. Qed.

(** C6: when [manualCurrency] is supplied, a fresh instance starts with
    the uppercased manual value as its target currency and returns it in
    its first snapshot; on every render, whatever the access key, the
    geolocation observer is disabled and no geolocation request is allowed,
    and the state keeps the uppercased manual value. Hence along every
    sequence of renders with a manual currency the geolocation service is
    never contacted. *)
Theorem C6_manual_currency_bypasses_geolocation :
  (forall o manual,
     manualCurrency o = Some manual ->
     manual <> "" ->
     st_localCurrency (mount o) = Some (Js.toUpperCase manual)
     /\ (forall q, localCurrency (snapshot o q (mount o)) = Some (Js.toUpperCase manual))
     /\ forall q st,
          reachable st ->
          let out := useCurrencyConverter o q st in
          enabled (geolocationQuery out) = false
          /\ (geolocationUrl ∉ allowed_requests out)
          /\ st_localCurrency (state out) = Some (Js.toUpperCase manual))
  /\ (forall st rs,
        reachable st ->
        Forall (fun r => manual_supplied (r_options r)) rs ->
        Forall (fun out => enabled (geolocationQuery out) = false
                           /\ (geolocationUrl ∉ allowed_requests out))
          (run st rs)).
Proof.
  assert (Hstep : forall o manual,
            manualCurrency o = Some manual -> manual <> "" ->
            upperManualCurrency o = Some (Js.toUpperCase manual)
            /\ Js.truthy_opt (upperManualCurrency o) = true
            /\ forall q st,
                 enabled (geolocationQuery (useCurrencyConverter o q st)) = false
                 /\ (geolocationUrl ∉ allowed_requests (useCurrencyConverter o q st))).
  { intros o manual Hm Hne.
    assert (Hup : upperManualCurrency o = Some (Js.toUpperCase manual)).
    { unfold upperManualCurrency. rewrite Hm. reflexivity. }
    assert (Ht : Js.truthy_opt (upperManualCurrency o) = true).
    { rewrite Hup. cbn. rewrite toUpperCase_truthy. apply truthy_nonempty, Hne. }
    split; [exact Hup|]. split; [exact Ht|]. intros q st.
    assert (Hg : enabled (geolocationQuery (useCurrencyConverter o q st)) = false).
    { rewrite render_fields. cbn [geolocationQuery enabled]. rewrite Ht. reflexivity. }
    split; [exact Hg|].
    unfold allowed_requests. rewrite Hg. cbn [app].
    destruct (enabled (exchangeQuery (useCurrencyConverter o q st)));
      [|apply not_elem_of_nil].
    rewrite render_fields. cbn [exchangeQuery requestUrl].
    intros Hin. apply list_elem_of_singleton in Hin. symmetry in Hin.
    exact (request_urls_differ _ _ Hin). }
  split.
  - intros o manual Hm Hne. destruct (Hstep o manual Hm Hne) as (Hup & Ht & Hgeo).
    assert (Hmount : st_localCurrency (mount o) = Some (Js.toUpperCase manual)).
    { cbn. unfold Js.or_null. rewrite Ht. exact Hup. }
    split; [exact Hmount|]. split.
    + intros q.
      destruct (render_sources o q (mount o) (reach_mount o)) as (k & m & _ & _ & Hs).
      rewrite Hs. cbn [localCurrency]. exact Hmount.
    + intros q st Hr out. destruct (Hgeo q st) as [Hg Hurl].
      split; [exact Hg|]. split; [exact Hurl|].
      unfold out. rewrite render_fields. cbn [state st_localCurrency].
      destruct (effect_due (currencyEffect st) (render_currencyDeps o q)) eqn:Ed.
      * unfold currencyEffect_body. rewrite Ht. exact Hup.
      * unfold effect_due in Ed.
        destruct (currencyEffect st) as [[m g]|] eqn:Ec; [|discriminate].
        apply negb_false_iff, bool_decide_eq_true in Ed.
        unfold render_currencyDeps in Ed. injection Ed as -> ->.
        rewrite (reachable_currency_synced st Hr _ _ Ec Ht). exact Hup.
  - intros st rs Hr Hrs.
    apply (run_Forall manual_supplied
             (fun out => enabled (geolocationQuery out) = false
                         /\ (geolocationUrl ∉ allowed_requests out))); try assumption.
    intros o q st' _ (manual & Hm & Hne).
    destruct (Hstep o manual Hm Hne) as (_ & _ & Hgeo). apply Hgeo.
Qed.

Lemma C6_manual_currency_bypasses_geolocation_witness :
  let o := Scenario.with_manual "gbp" Scenario.request in
  let blank := Scenario.with_key (Some "") o in
  let rs := [mkRender o Scenario.emptyCache; mkRender blank Scenario.ratesCached] in
  manualCurrency o = Some "gbp"
  /\ "gbp" <> ""
  /\ Forall (fun r => manual_supplied (r_options r)) rs
  /\ st_localCurrency (mount o) = Some "GBP"
  /\ Forall (fun out => enabled (geolocationQuery out) = false
                        /\ (geolocationUrl ∉ allowed_requests out))
       (run (mount o) rs).
Proof.
  cbv zeta.
  assert (Hne : "gbp" <> "") by discriminate.
  assert (Hrs : Forall (fun r => manual_supplied (r_options r))
                  [mkRender (Scenario.with_manual "gbp" Scenario.request)
                     Scenario.emptyCache;
                   mkRender (Scenario.with_key (Some "")
                               (Scenario.with_manual "gbp" Scenario.request))
                     Scenario.ratesCached]).
  { constructor; [exists "gbp"; split; [reflexivity | exact Hne]|].
    constructor; [exists "gbp"; split; [reflexivity | exact Hne]|]. constructor. }
  split; [reflexivity|]. split; [exact Hne|]. split; [exact Hrs|]. split.
  - exact (proj1 (proj1 C6_manual_currency_bypasses_geolocation
                    (Scenario.with_manual "gbp" Scenario.request) "gbp" eq_refl Hne)).
  - exact (proj2 C6_manual_currency_bypasses_geolocation _ _ (reach_mount _) Hrs).
Defined.

(** C8: the resolved local currency of a fresh instance is null unless a
    manual currency is supplied; a render leaves it unchanged or sets it to
    the (non-empty) uppercased manual currency or to the currency of the
    geolocation data held; and once it is set it is still set after any
    sequence of further renders, whatever their options and whatever the
    query layer reports (failed lookups included). *)
Theorem C8_local_currency_never_reverts :
  (forall o, manualCurrency o = None -> st_localCurrency (mount o) = None)
  /\ (forall o q st,
        let after := st_localCurrency (state (useCurrencyConverter o q st)) in
        after = st_localCurrency st
        \/ (after = upperManualCurrency o /\ Js.truthy_opt after = true)
        \/ (exists g, q_data (geolocation q) = Some g
                      /\ after = Some (geo_currency g)
                      /\ Js.truthy (geo_currency g) = true))
  /\ (forall st rs,
        is_Some (st_localCurrency st) ->
        is_Some (st_localCurrency (run_state st rs))).
Proof.
  assert (Hstep : forall o q st,
            let after := st_localCurrency (state (useCurrencyConverter o q st)) in
            after = st_localCurrency st
            \/ (after = upperManualCurrency o /\ Js.truthy_opt after = true)
            \/ (exists g, q_data (geolocation q) = Some g
                          /\ after = Some (geo_currency g)
                          /\ Js.truthy (geo_currency g) = true)).
  { intros o q st after. unfold after. rewrite render_fields.
    cbn [state st_localCurrency].
    destruct (effect_due _ _); [|left; reflexivity].
    unfold currencyEffect_body.
    destruct (Js.truthy_opt (upperManualCurrency o)) eqn:Em.
    - right; left. split; [reflexivity | exact Em].
    - destruct (q_data (geolocation q)) as [g|]; cbn [fmap option_fmap option_map Js.truthy_opt].
      + destruct (Js.truthy (geo_currency g)) eqn:Eg.
        * right; right. exists g. auto.
        * left; reflexivity.
      + left; reflexivity. }
  split; [|split].
  - intros o Hm. cbn. unfold upperManualCurrency. rewrite Hm. reflexivity.
  - exact Hstep.
  - intros st rs. revert st. induction rs as [|r rs IH]; intros st Hs; cbn [run_state].
    + exact Hs.
    + apply IH.
      destruct (Hstep (r_options r) (r_queries r) st) as [H | [[H Ht] | (g & _ & H & _)]].
      * rewrite H. exact Hs.
      * destruct (st_localCurrency (state _)); [eauto | discriminate Ht].
      * rewrite H. eauto.
Qed.

Lemma C8_local_currency_never_reverts_witness :
  let st := state (useCurrencyConverter Scenario.request (Scenario.located "EUR")
                     (mount Scenario.request)) in
  let rs := [mkRender Scenario.request Scenario.geoFailed;
             mkRender Scenario.request Scenario.emptyCache] in
  is_Some (st_localCurrency st)
  /\ is_Some (st_localCurrency (run_state st rs)).
Proof.
  cbv zeta.
  assert (Hs : is_Some (st_localCurrency
                          (state (useCurrencyConverter Scenario.request
                                    (Scenario.located "EUR") (mount Scenario.request))))).
  { vm_compute. eauto. }
  split; [exact Hs|].
  exact (proj2 (proj2 C8_local_currency_never_reverts) _ _ Hs).
Defined.

(* ===================================================================== *)
(** * Case-insensitivity of the currency codes *)
(* ===================================================================== *)

Lemma char_upper_idempotent (x : ascii) : Js.char_upper (Js.char_upper x) = Js.char_upper x.
Proof. destruct x as [[] [] [] [] [] [] [] []]; reflexivity. Qed.

Lemma char_upper_lower (x : ascii) :
  Js.is_upper x = true -> Js.char_upper (Js.char_lower x) = Js.char_upper x.
Proof. destruct x as [[] [] [] [] [] [] [] []]; intros H; try reflexivity; discriminate H. Qed.

Lemma same_letter_upper (x y : ascii) :
  same_letter x y = true -> Js.char_upper x = Js.char_upper y.
Proof.
  unfold same_letter. rewrite !orb_true_iff, !andb_true_iff, !bool_decide_eq_true.
  intros [[-> | [_ ->]] | [Hu ->]].
  - reflexivity.
  - symmetry. apply char_upper_idempotent.
  - symmetry. apply char_upper_lower, Hu.
Qed.

Lemma same_ignoring_case_upper (a b : string) :
  same_ignoring_case a b = true -> Js.toUpperCase a = Js.toUpperCase b.
Proof.
  revert b. induction a as [|x a IH]; intros [|y b]; cbn; try discriminate.
  - reflexivity.
  - rewrite andb_true_iff. intros [Hxy Hab].
    rewrite (same_letter_upper x y Hxy), (IH b Hab). reflexivity.
Qed.

(** C9: two requests that are identical except for the letter case of
    [baseCurrency] and/or [manualCurrency] mount into the same state and,
    on every state and query layer, render to the same output: the same
    returned snapshot in every field, the same next state and resolved
    currency, the same callback invocations and the same observer options;
    hence the same outputs along every sequence of renders. *)
Theorem C9_case_insensitive (o1 o2 : Options) :
  differ_only_in_case o1 o2 ->
  mount o1 = mount o2
  /\ (forall q st, useCurrencyConverter o1 q st = useCurrencyConverter o2 q st)
  /\ (forall q st, snapshot o1 q st = snapshot o2 q st)
  /\ (forall st qs,
        run st (map (mkRender o1) qs) = run st (map (mkRender o2) qs)).
Proof.
  intros (Hp & Hk & Hs & He & Hb & Hm).
  assert (Hbase : upperBaseCurrency o1 = upperBaseCurrency o2).
  { apply same_ignoring_case_upper, Hb. }
  assert (Hman : upperManualCurrency o1 = upperManualCurrency o2).
  { unfold upperManualCurrency.
    destruct (manualCurrency o1) as [a|], (manualCurrency o2) as [b|]; try contradiction.
    - cbn. f_equal. apply same_ignoring_case_upper, Hm.
    - reflexivity. }
  assert (Hrender : forall q st, useCurrencyConverter o1 q st = useCurrencyConverter o2 q st).
  { intros q st. unfold useCurrencyConverter. rewrite Hbase, Hman, Hp, Hk, Hs, He. reflexivity. }
  split; [|split; [exact Hrender | split]].
  - unfold mount. rewrite Hman, Hs, He. reflexivity.
  - intros q st. unfold snapshot. rewrite Hrender. reflexivity.
  - intros st qs. revert st. induction qs as [|q qs IH]; intros st; cbn [map run r_options r_queries].
    + reflexivity.
    + rewrite Hrender, IH. reflexivity.
Qed.

Lemma C9_case_insensitive_witness :
  let o1 := Scenario.with_manual "eur" Scenario.request in
  let o2 :=
    {| basePrice := Js.of_Z 100; opt_baseCurrency := "usd";
       apiKey := Some "test-api-key"; manualCurrency := Some "EuR";
       onSuccess := Some 1%nat; onError := Some 2%nat |} in
  differ_only_in_case o1 o2
  /\ snapshot o1 (Scenario.located "USD") (mount o1)
     = snapshot o2 (Scenario.located "USD") (mount o2).
Proof.
  cbv zeta.
  assert (H : differ_only_in_case (Scenario.with_manual "eur" Scenario.request)
                {| basePrice := Js.of_Z 100; opt_baseCurrency := "usd";
                   apiKey := Some "test-api-key"; manualCurrency := Some "EuR";
                   onSuccess := Some 1%nat; onError := Some 2%nat |}).
  { repeat split. }
  split; [exact H|].
  destruct (C9_case_insensitive _ _ H) as (Hmount & _ & Hsnap & _).
  rewrite Hmount. apply Hsnap.
Defined.

(* ===================================================================== *)
(** * A rate of zero *)
(* ===================================================================== *)

Lemma convert_zero_rate (price : Js.number) (s : bool) :
  Js.is_finite price = true -> convert price (S754_zero s) = S754_zero false.
Proof. destruct price; intros H; try discriminate H; reflexivity. Qed.

(** C10: when the rate table held maps the resolved currency to the
    Number 0, the snapshot of a finite base price has [convertedPrice]
    equal to 0 and no mismatch error is produced, while its [exchangeRate]
    field is null: a non-null [convertedPrice] next to a null
    [exchangeRate]. *)
Theorem C10_zero_rate (o : Options) (q : QueryLayer) (st : HookState)
    (code : string) (response : ExchangeRateResponse)
    (rates : gmap string Js.number) (s : bool) :
  reachable st ->
  Js.is_finite (basePrice o) = true ->
  st_localCurrency st = Some code ->
  rateResponse o q st = Some response ->
  conversion_rates response = Some rates ->
  rates !! code = Some (S754_zero s) ->
  convertedPrice (snapshot o q st) = Some (S754_zero false)
  /\ exchangeRate (snapshot o q st) = None
  /\ mismatchError o q st = None.
Proof.
  intros Hr Hfin Hl Hd Hc Hzero.
  pose proof (reachable_local_truthy st code Hr Hl) as Ht.
  destruct (render_sources o q st Hr) as (k & m & _ & Hm & Hs).
  assert (Hno : mismatchError o q st = None).
  { rewrite Hm, Hl, Hd. unfold mismatch_applies, has_rate. rewrite Hc, Ht, Hzero.
    rewrite bool_decide_eq_true_2 by eauto. reflexivity. }
  rewrite Hs. cbn [convertedPrice exchangeRate]. rewrite Hno, Hl, Hd.
  unfold exchangeRate_of. rewrite Hc, Ht, Hzero. cbn.
  rewrite convert_zero_rate by exact Hfin. auto.
Qed.

Lemma C10_zero_rate_witness :
  let o := Scenario.with_price (Js.of_Z (-50)) (Scenario.with_manual "EUR" Scenario.request) in
  let q := Scenario.zeroRated in
  reachable (mount o)
  /\ Js.is_finite (basePrice o) = true
  /\ Scenario.zeroTable !! "EUR" = Some (S754_zero false)
  /\ convertedPrice (snapshot o q (mount o)) = Some (S754_zero false)
  /\ exchangeRate (snapshot o q (mount o)) = None.
Proof.
  cbv zeta.
  split; [constructor|]. split; [reflexivity|]. split; [reflexivity|].
  destruct (C10_zero_rate
              (Scenario.with_price (Js.of_Z (-50))
                 (Scenario.with_manual "EUR" Scenario.request))
              Scenario.zeroRated
              (mount (Scenario.with_price (Js.of_Z (-50))
                        (Scenario.with_manual "EUR" Scenario.request)))
              "EUR" Scenario.zeroRates Scenario.zeroTable false
              (reach_mount _) eq_refl eq_refl eq_refl eq_refl eq_refl) as (H1 & H2 & _).
  split; [exact H1 | exact H2].
Defined.

(* ===================================================================== *)
(** * Notification of the callbacks *)
(* ===================================================================== *)

(** What the refs held before a render is never read: the first effect
    overwrites them before the notification effects run. *)
Lemma render_ignores_refs (o : Options) (q : QueryLayer) (st : HookState)
    (a b : option Callback) :
  useCurrencyConverter o q (set_refs st a b) = useCurrencyConverter o q st.
Proof. reflexivity. Qed.

Lemma set_refs_same (st : HookState) :
  set_refs st (onSuccessRef st) (onErrorRef st) = st.
Proof. destruct st; reflexivity. Qed.

Lemma effect_due_iff {D : Type} `{EqDecision D} (previous : option D) (deps : D) :
  effect_due previous deps = true <-> previous <> Some deps.
Proof.
  unfold effect_due. destruct previous as [d|].
  - rewrite negb_true_iff, bool_decide_eq_false. split; congruence.
  - split; [discriminate | reflexivity].
Qed.

(** Re-rendering with the same request and query layer, whatever the
    callbacks, once [localCurrency] is stable: every memo hits, no effect
    is due, nothing is invoked and only the refs change. *)
Lemma rerender_steady (o : Options) (q : QueryLayer) (st : HookState)
    (cb : option Callback * option Callback) :
  let out := useCurrencyConverter o q st in
  st_localCurrency (state out) = st_localCurrency st ->
  useCurrencyConverter (with_callbacks o cb) q (state out)
  = {| returned := returned out;
       state := set_refs (state out) cb.1 cb.2;
       calls := [];
       geolocationQuery := geolocationQuery out;
       exchangeQuery := exchangeQuery out |}.
Proof.
  intros out Hlocal. unfold out in *. clear out.
  set (o' := with_callbacks o cb).
  rewrite (render_fields o q st) in Hlocal |- *.
  cbn [state returned geolocationQuery exchangeQuery] in Hlocal |- *.
  set (st1 := {| st_localCurrency := _ |}) in *.
  assert (Hl : st_localCurrency st1 = st_localCurrency st) by exact Hlocal.
  assert (Hkey : slot_apiKeyError o' st1
                 = ((slot_apiKeyError o st).1.1, (slot_apiKeyError o st).1.2,
                    (slot_result o q st).2)).
  { unfold slot_apiKeyError at 1. subst st1. cbn [apiKeyMemo nextId].
    unfold slot_apiKeyError at 1. rewrite useMemo_cache.
    change (apiKey o') with (apiKey o). rewrite useMemo_hit.
    unfold slot_apiKeyError. rewrite useMemo_cache. reflexivity. }
  assert (Hmis : slot_mismatch o' q st1
                 = ((slot_mismatch o q st).1.1, (slot_mismatch o q st).1.2,
                    (slot_result o q st).2)).
  { unfold slot_mismatch at 1. rewrite Hkey. cbn [snd].
    change (render_exchange o' q) with (render_exchange o q). rewrite Hl.
    subst st1. cbn [mismatchMemo].
    unfold slot_mismatch at 1. rewrite useMemo_cache. rewrite useMemo_hit.
    unfold slot_mismatch. rewrite useMemo_cache. reflexivity. }
  assert (Herr : render_error o' q st1 = render_error o q st).
  { unfold render_error. rewrite Hmis, Hkey, Hl. reflexivity. }
  assert (Hconv : render_converted o' q st1 = render_converted o q st).
  { unfold render_converted. rewrite Hmis, Hl. reflexivity. }
  assert (Hdeps : render_resultDeps o' q st1 = render_resultDeps o q st).
  { unfold render_resultDeps. rewrite Herr, Hconv, Hl. reflexivity. }
  assert (Hres : slot_result o' q st1
                 = ((slot_result o q st).1.1, (slot_result o q st).1.2,
                    (slot_result o q st).2)).
  { unfold slot_result at 1. rewrite Hdeps, Hmis. cbn [snd].
    subst st1. cbn [resultMemo].
    unfold slot_result at 1. rewrite useMemo_cache. rewrite useMemo_hit.
    unfold slot_result. rewrite useMemo_cache. reflexivity. }
  assert (Hsd : render_successDeps o' q st1 = render_successDeps o q st).
  { unfold render_successDeps. rewrite Herr, Hconv, Hres, Hl. reflexivity. }
  assert (Hed : render_errorDeps o' q st1 = render_errorDeps o q st).
  { unfold render_errorDeps. rewrite Herr, Hl. reflexivity. }
  rewrite (render_fields o' q st1).
  unfold success_calls, error_calls. rewrite Hsd, Hed, Hres, Hkey, Hl.
  change (render_currencyDeps o' q) with (render_currencyDeps o q).
  change (upperBaseCurrency o') with (upperBaseCurrency o).
  change (upperManualCurrency o') with (upperManualCurrency o).
  change (apiKey o') with (apiKey o).
  rewrite Hmis. cbn [fst snd].
  subst st1. cbn [successEffect errorEffect currencyEffect state st_localCurrency
                  geolocationQuery exchangeQuery returned].
  rewrite !effect_due_same. cbn [andb app].
  unfold set_refs. cbn [st_localCurrency apiKeyMemo mismatchMemo resultMemo
                        currencyEffect successEffect errorEffect nextId].
  cbn [st_localCurrency] in Hlocal. rewrite ?Hlocal. reflexivity.
Qed.

Lemma snapshot_render (o : Options) (q : QueryLayer) (st : HookState) :
  reachable st ->
  isLoading (snapshot o q st) = render_isLoading o q (st_localCurrency st)
  /\ error (snapshot o q st) = render_error o q st
  /\ convertedPrice (snapshot o q st) = render_converted o q st.
Proof.
  intros Hr. destruct (render_sources o q st Hr) as (k & m & _ & _ & Hs).
  rewrite Hs. repeat split.
Qed.

Lemma run_steady (o : Options) (q : QueryLayer) (st : HookState)
    (later : list (option Callback * option Callback)) (a b : option Callback) :
  let out := useCurrencyConverter o q st in
  st_localCurrency (state out) = st_localCurrency st ->
  Forall (fun out' => calls out' = [] /\ returned out' = returned out)
    (run (set_refs (state out) a b) (rerenders o q later)).
Proof.
  intros out Hlocal. subst out. revert a b.
  induction later as [|cb later IH]; intros a b; cbn [rerenders map run].
  - constructor.
  - cbn [r_options r_queries]. rewrite render_ignores_refs.
    rewrite (rerender_steady o q st cb Hlocal). cbn [calls returned state].
    constructor; [split; reflexivity|]. apply IH.
Qed.

Lemma no_calls_concat (out : RenderOut) (outs : list RenderOut) :
  Forall (fun out' => calls out' = [] /\ returned out' = returned out) outs ->
  concat (map calls outs) = [].
Proof.
  induction 1 as [|x l [Hx _] _ IH]; cbn [map concat].
  - reflexivity.
  - rewrite Hx, IH. reflexivity.
Qed.

(** C2: take any render of a hook instance after which the resolved
    currency is unchanged, and re-render the same request against the same
    query layer any number of times, each time with other callback
    functions. No re-render invokes a callback, and each returns the very
    same result object. If the first render is the one at which the outcome
    becomes a settled success (not loading, no error, a converted price),
    [onSuccess] is invoked exactly once over the whole sequence, with that
    result; if it is the one at which it becomes a settled error, [onError]
    is invoked exactly once, with that error. Every invocation goes to the
    callback supplied at the render it happens in, whatever the refs held
    before. *)
Theorem C2_callbacks_fire_once (o : Options) (q : QueryLayer) (st : HookState)
    (later : list (option Callback * option Callback)) :
  reachable st ->
  let out := useCurrencyConverter o q st in
  let outs := run (state out) (rerenders o q later) in
  st_localCurrency (state out) = st_localCurrency st ->
  Forall (to_latest o) (calls out)
  /\ Forall (fun out' => calls out' = [] /\ returned out' = returned out) outs
  /\ (forall f,
        onSuccess o = Some f ->
        isLoading (snapshot o q st) = false ->
        error (snapshot o q st) = None ->
        is_Some (convertedPrice (snapshot o q st)) ->
        success_newly_reached o q st ->
        concat (map calls (out :: outs)) = [CallOnSuccess f (returned out)])
  /\ (forall g e,
        onError o = Some g ->
        isLoading (snapshot o q st) = false ->
        error (snapshot o q st) = Some e ->
        error_newly_reached o q st ->
        concat (map calls (out :: outs)) = [CallOnError g e]).
Proof.
  intros Hr out outs Hlocal.
  destruct (snapshot_render o q st Hr) as (Hload & Herr & Hconv).
  assert (Hlater : Forall (fun out' => calls out' = [] /\ returned out' = returned out) outs).
  { unfold outs. rewrite <- (set_refs_same (state out)). apply run_steady, Hlocal. }
  assert (Hcalls : calls out = success_calls o q st ++ error_calls o q st).
  { unfold out. rewrite render_fields. reflexivity. }
  assert (Hret : returned out = (slot_result o q st).1.1).
  { unfold out. rewrite render_fields. reflexivity. }
  split; [|split; [exact Hlater | split]].
  - rewrite Hcalls. apply Forall_app. unfold success_calls, error_calls. split.
    + destruct (_ && _); [|constructor].
      destruct (onSuccess o) eqn:E; [|constructor].
      constructor; [exact E | constructor].
    + destruct (_ && _); [|constructor].
      destruct (render_error o q st); [|constructor].
      destruct (onError o) eqn:E; [|constructor].
      constructor; [exact E | constructor].
  - intros f Hf Hl He Hc Hnew. cbn [map concat].
    rewrite (no_calls_concat out outs Hlater), app_nil_r, Hcalls, Hret.
    rewrite Hload in Hl. rewrite Herr in He. rewrite Hconv in Hc.
    unfold success_calls, error_calls.
    rewrite (proj2 (effect_due_iff _ _) Hnew), Hl, He, Hf.
    rewrite (bool_decide_eq_true_2 _ Hc).
    rewrite bool_decide_eq_false_2 by (intros [? ?]; discriminate).
    cbn. destruct (effect_due _ _); reflexivity.
  - intros g e Hg Hl He Hnew. cbn [map concat].
    rewrite (no_calls_concat out outs Hlater), app_nil_r, Hcalls.
    rewrite Hload in Hl. rewrite Herr in He.
    unfold success_calls, error_calls.
    rewrite (proj2 (effect_due_iff _ _) Hnew), Hl, He, Hg.
    rewrite (bool_decide_eq_true_2 (is_Some (Some e))) by eauto.
    rewrite !andb_false_r. reflexivity.
Qed.

Lemma C2_callbacks_fire_once_witness :
  let o := Scenario.request in
  let q := Scenario.located "EUR" in
  let st := state (useCurrencyConverter o q (mount o)) in
  let later := [(Some 5%nat, Some 6%nat); (None, Some 7%nat); (Some 8%nat, None)] in
  let out := useCurrencyConverter o q st in
  reachable st
  /\ st_localCurrency (state out) = st_localCurrency st
  /\ success_newly_reached o q st
  /\ concat (map calls (out :: run (state out) (rerenders o q later)))
     = [CallOnSuccess 1%nat (returned out)].
Proof.
  cbv zeta.
  assert (Hr : reachable (state (useCurrencyConverter Scenario.request
                                   (Scenario.located "EUR") (mount Scenario.request)))).
  { do 2 constructor. }
  assert (Hnew : success_newly_reached Scenario.request (Scenario.located "EUR")
                   (state (useCurrencyConverter Scenario.request
                             (Scenario.located "EUR") (mount Scenario.request)))).
  { vm_compute. discriminate. }
  split; [exact Hr|]. split; [reflexivity|]. split; [exact Hnew|].
  refine (proj1 (proj2 (proj2 (C2_callbacks_fire_once Scenario.request
            (Scenario.located "EUR") _ _ Hr eq_refl))) 1%nat eq_refl _ _ _ Hnew).
  - vm_compute. reflexivity.
  - vm_compute. reflexivity.
  - vm_compute. eauto.
Defined.

(* ===================================================================== *)
(** * Rounding of the converted price *)
(* ===================================================================== *)

(** ** The mantissa of a product has at most 53 bits *)

Lemma digits2_pos_bound (p : positive) : Z.pos p < 2 ^ Z.pos (digits2_pos p).
Proof.
  induction p as [p IH | p IH |]; cbn [digits2_pos].
  - rewrite Pos2Z.inj_succ, Z.pow_succ_r by lia. lia.
  - rewrite Pos2Z.inj_succ, Z.pow_succ_r by lia. lia.
  - reflexivity.
Qed.

Lemma Zdigits2_bound (m : Z) : 0 <= m -> m < 2 ^ Zdigits2 m.
Proof.
  destruct m as [|p|p]; intros H; cbn [Zdigits2].
  - reflexivity.
  - apply digits2_pos_bound.
  - lia.
Qed.

Lemma shr_1_bound (r : shr_record) (b : Z) :
  0 <= b -> 0 <= shr_m r < 2 ^ (b + 1) -> 0 <= shr_m (shr_1 r) < 2 ^ b.
Proof.
  intros Hb. destruct r as [m r s]. cbn [shr_m]. rewrite Z.pow_add_r by lia.
  change (2 ^ 1) with 2. intros [H0 H1].
  pose proof (Z.pow_pos_nonneg 2 b) as Hpos.
  destruct m as [|[p|p|]|p]; cbn [shr_1 shr_m]; lia.
Qed.

Lemma iter_shr_1_bound (p : positive) :
  forall (r : shr_record) (b : Z),
    0 <= b -> 0 <= shr_m r < 2 ^ (b + Z.pos p) ->
    0 <= shr_m (SpecFloat.iter_pos shr_1 p r) < 2 ^ b.
Proof.
  induction p as [p IH | p IH |]; intros r b Hb Hr; cbn [SpecFloat.iter_pos].
  - apply IH; [exact Hb|]. apply IH; [lia|]. apply shr_1_bound; [lia|].
    replace (b + Z.pos p + Z.pos p + 1) with (b + Z.pos p~1) by lia. exact Hr.
  - apply IH; [exact Hb|]. apply IH; [lia|].
    replace (b + Z.pos p + Z.pos p) with (b + Z.pos p~0) by lia. exact Hr.
  - apply shr_1_bound; assumption.
Qed.

Lemma shr_fexp_bound (m e : Z) (l : location) :
  0 <= m ->
  0 <= shr_m (shr_fexp Js.prec Js.emax m e l).1 < 2 ^ Js.prec.
Proof.
  intros Hm. unfold shr_fexp, shr.
  pose proof (Zdigits2_bound m Hm) as Hd.
  assert (Hrec : shr_m (shr_record_of_loc m l) = m).
  { destruct l as [|[]]; reflexivity. }
  assert (Hdig : 0 <= Zdigits2 m) by (destruct m; cbn; lia).
  destruct (fexp Js.prec Js.emax (Zdigits2 m + e) - e) as [|p|p] eqn:En; cbn [fst].
  - rewrite Hrec. split; [exact Hm|].
    unfold fexp in En. eapply Z.lt_le_trans; [exact Hd|].
    apply Z.pow_le_mono_r; unfold Js.prec in *; lia.
  - apply iter_shr_1_bound; [unfold Js.prec; lia|]. rewrite Hrec. split; [exact Hm|].
    eapply Z.lt_le_trans; [exact Hd|].
    apply Z.pow_le_mono_r; [lia|]. unfold fexp in En. unfold Js.prec in *. lia.
  - rewrite Hrec. split; [exact Hm|].
    unfold fexp in En. eapply Z.lt_le_trans; [exact Hd|].
    apply Z.pow_le_mono_r; unfold Js.prec in *; lia.
Qed.

Lemma round_nearest_even_nonneg (m : Z) (l : location) :
  0 <= m -> 0 <= round_nearest_even m l.
Proof.
  intros H. destruct l as [|[]]; cbn [round_nearest_even]; try lia.
  destruct (Z.even m); lia.
Qed.

Lemma binary_round_aux_mantissa (sx : bool) (mx ex : Z) (lx : location)
    (s : bool) (m : positive) (e : Z) :
  0 <= mx ->
  binary_round_aux Js.prec Js.emax sx mx ex lx = S754_finite s m e ->
  Z.pos m < 2 ^ Js.prec.
Proof.
  intros Hm. unfold binary_round_aux.
  destruct (shr_fexp Js.prec Js.emax mx ex lx) as [mrs' e'] eqn:E1.
  pose proof (proj1 (shr_fexp_bound mx ex lx Hm)) as H1. rewrite E1 in H1. cbn [fst] in H1.
  destruct (shr_fexp Js.prec Js.emax
              (round_nearest_even (shr_m mrs') (loc_of_shr_record mrs')) e' loc_Exact)
    as [mrs'' e''] eqn:E2.
  pose proof (shr_fexp_bound (round_nearest_even (shr_m mrs') (loc_of_shr_record mrs'))
                e' loc_Exact (round_nearest_even_nonneg _ _ H1)) as H2.
  rewrite E2 in H2. cbn [fst] in H2.
  destruct (shr_m mrs'') as [|p|p]; try discriminate.
  destruct (e'' <=? Js.emax - Js.prec); [|discriminate].
  intros [= _ <- _]. apply H2.
Qed.

Lemma mul_mantissa (x y : spec_float) (s : bool) (m : positive) (e : Z) :
  Js.mul x y = S754_finite s m e -> Z.pos m < 2 ^ 53.
Proof.
  unfold Js.mul, SFmul.
  destruct x as [sx|sx| |sx mx ex], y as [sy|sy| |sy my ey]; try discriminate.
  apply binary_round_aux_mantissa. lia.
Qed.

(** ** [toFixed(2)] rounds half away from zero *)

Lemma to_Q_finite (s : bool) (m : positive) (e : Z) :
  Js.to_Q (S754_finite s m e) = if s then Qopp (magnitude m e) else magnitude m e.
Proof. reflexivity. Qed.

Lemma magnitude_pos (m : positive) (e : Z) : (0 < magnitude m e)%Q.
Proof.
  unfold magnitude. destruct (0 <=? e) eqn:E.
  - apply Z.leb_le in E. unfold Qlt, inject_Z. cbn [Qnum Qden].
    pose proof (Z.pow_pos_nonneg 2 e). nia.
  - unfold Qlt. cbn [Qnum Qden]. lia.
Qed.

Lemma half_floor (k : Z) : (2 * k + 1) / 2 = k.
Proof. symmetry. apply (Z.div_unique (2 * k + 1) 2 k 1); lia. Qed.

Lemma floor_magnitude (m : positive) (e : Z) :
  Qfloor (magnitude m e * 100 + (1 # 2)) = Js.nearest_hundredths m e.
Proof.
  unfold magnitude, Js.nearest_hundredths. destruct (0 <=? e) eqn:E.
  - unfold inject_Z, Qmult, Qplus, Qfloor. cbn [Qnum Qden].
    change (Z.pos (1 * 1 * 2)) with 2. change (Z.pos (1 * 1)) with 1.
    replace (Z.pos m * 2 ^ e * 100 * 2 + 1 * 1) with (2 * (100 * Z.pos m * 2 ^ e) + 1) by lia.
    apply half_floor.
  - apply Z.leb_gt in E.
    unfold Qmult, Qplus, Qfloor. cbn [Qnum Qden].
    assert (Hp : 0 < 2 ^ (- e)) by (apply Z.pow_pos_nonneg; lia).
    rewrite !Pos2Z.inj_mul, Z2Pos.id by exact Hp.
    replace (- e + 1) with (Z.succ (- e)) by lia. rewrite Z.pow_succ_r by lia.
    f_equal; lia.
Qed.

Lemma round2_opp (x : Q) :
  (0 < x)%Q ->
  round2_half_away (- x) = (inject_Z (- Qfloor (x * 100 + (1 # 2))) / 100)%Q.
Proof.
  intros Hx. unfold round2_half_away.
  assert (Habs : (Qabs (- x) * 100 + (1 # 2) == x * 100 + (1 # 2))%Q).
  { apply Qplus_comp; [|reflexivity]. apply Qmult_comp; [|reflexivity].
    rewrite Qabs_opp. apply Qabs_pos, Qlt_le_weak, Hx. }
  rewrite (Qfloor_comp _ _ Habs).
  destruct (Qlt_le_dec (- x) 0) as [_|H]; [reflexivity|].
  exfalso. apply (Qlt_irrefl 0). apply Qlt_le_trans with (1 := Hx).
  rewrite <- (Qopp_involutive x). change 0%Q with (- 0)%Q. apply Qopp_le_compat, H.
Qed.

Lemma round2_pos (x : Q) :
  (0 < x)%Q ->
  round2_half_away x = (inject_Z (Qfloor (x * 100 + (1 # 2))) / 100)%Q.
Proof.
  intros Hx. unfold round2_half_away.
  assert (Habs : (Qabs x * 100 + (1 # 2) == x * 100 + (1 # 2))%Q).
  { apply Qplus_comp; [|reflexivity]. apply Qmult_comp; [|reflexivity].
    apply Qabs_pos, Qlt_le_weak, Hx. }
  rewrite (Qfloor_comp _ _ Habs).
  destruct (Qlt_le_dec x 0) as [H|_]; [|reflexivity].
  exfalso. apply (Qlt_irrefl 0). apply Qlt_trans with (1 := Hx), H.
Qed.

(** A Number of at least 10^21 with a 53-bit mantissa is an integer. *)
Lemma at_least_1e21_integral (m : positive) (e : Z) :
  Z.pos m < 2 ^ 53 -> Js.at_least_1e21 m e = true -> 0 <= e.
Proof.
  intros Hm. unfold Js.at_least_1e21. destruct (0 <=? e) eqn:E.
  - intros _. apply Z.leb_le, E.
  - apply Z.leb_gt in E. intros H. apply Z.leb_le in H.
    assert (0 < 2 ^ (- e)) by (apply Z.pow_pos_nonneg; lia).
    assert (2 ^ 53 < 10 ^ 21) by reflexivity. nia.
Qed.

Lemma hundredths_integer (v : Z) : (inject_Z (100 * v) / 100 == inject_Z v)%Q.
Proof. unfold Qeq, Qdiv, Qmult, Qinv, inject_Z. cbn. lia. Qed.

(** The text of [x.toFixed(2)] denotes [x] rounded to two decimals, half
    away from zero. *)
Lemma toFixed2_rounds (x : spec_float) :
  (forall s m e, x = S754_finite s m e -> Z.pos m < 2 ^ 53) ->
  Js.is_finite x = true ->
  (text_value (Js.toFixed2 x) == round2_half_away (Js.to_Q x))%Q.
Proof.
  intros Hm Hfin. destruct x as [s | s | | s m e]; try discriminate Hfin.
  - cbn [Js.toFixed2 text_value Js.to_Q]. unfold round2_half_away.
    destruct (Qlt_le_dec 0 0) as [H|_]; [discriminate H | reflexivity].
  - specialize (Hm s m e eq_refl). rewrite to_Q_finite. cbn [Js.toFixed2].
    pose proof (magnitude_pos m e) as Hpos.
    destruct (Js.at_least_1e21 m e) eqn:Ebig.
    + cbn [text_value]. rewrite to_Q_finite.
      pose proof (at_least_1e21_integral m e Hm Ebig) as He.
      assert (Hfl : Qfloor (magnitude m e * 100 + (1 # 2)) = 100 * (Z.pos m * 2 ^ e)).
      { rewrite floor_magnitude. unfold Js.nearest_hundredths.
        rewrite (proj2 (Z.leb_le 0 e) He). lia. }
      assert (Hmag : magnitude m e = inject_Z (Z.pos m * 2 ^ e)).
      { unfold magnitude. rewrite (proj2 (Z.leb_le 0 e) He). reflexivity. }
      destruct s.
      * rewrite round2_opp, Hfl by exact Hpos. rewrite Hmag.
        replace (- (100 * (Z.pos m * 2 ^ e))) with (100 * - (Z.pos m * 2 ^ e)) by lia.
        rewrite hundredths_integer. unfold Qeq, Qopp, inject_Z. cbn. lia.
      * rewrite round2_pos, Hfl by exact Hpos. rewrite Hmag.
        rewrite hundredths_integer. reflexivity.
    + cbn [text_value]. destruct s.
      * rewrite round2_opp, floor_magnitude by exact Hpos. reflexivity.
      * rewrite round2_pos, floor_magnitude by exact Hpos. reflexivity.
Qed.

(** ** [parseFloat] returns the nearest Number *)

Lemma shr_1_locates (N D : Z) (r : shr_record) :
  0 < D -> 0 <= shr_m r -> locates N D r -> locates N (2 * D) (shr_1 r).
Proof.
  intros HD Hm. destruct r as [m r s]. unfold locates. cbn [shr_m shr_r shr_s].
  intros (Hrest & Hr & Hs).
  assert (Hor : orb r s = true <-> N - m * D <> 0).
  { rewrite Bool.orb_true_iff, Hr, Hs. lia. }
  cbn [shr_m] in Hm.
  destruct m as [|[p|p|]|p]; cbn -[Z.mul]; try lia;
    rewrite Hor; repeat split; intros; try lia; try discriminate.
Qed.

Lemma shr_1_m (r : shr_record) : 0 <= shr_m r -> shr_m (shr_1 r) = shr_m r / 2.
Proof.
  destruct r as [m r s]. cbn [shr_m]. intros Hm.
  destruct m as [|[p|p|]|p]; cbn [shr_1 shr_m]; try reflexivity; try lia.
  - apply (Z.div_unique (Z.pos p~1) 2 (Z.pos p) 1); lia.
  - apply (Z.div_unique (Z.pos p~0) 2 (Z.pos p) 0); lia.
Qed.

Lemma pow2_xO (p : positive) : 2 ^ Z.pos p~0 = 2 ^ Z.pos p * 2 ^ Z.pos p.
Proof. rewrite Pos2Z.inj_xO, <- Z.pow_add_r by lia. f_equal. lia. Qed.

Lemma pow2_xI (p : positive) : 2 ^ Z.pos p~1 = 2 * (2 ^ Z.pos p * 2 ^ Z.pos p).
Proof.
  rewrite Pos2Z.inj_xI, Z.pow_add_r by lia. change (2 ^ 1) with 2.
  rewrite <- Pos2Z.inj_xO, pow2_xO. lia.
Qed.

Lemma iter_shr_1_locates (p : positive) :
  forall (N D : Z) (r : shr_record),
    0 < D -> 0 <= shr_m r -> locates N D r ->
    locates N (D * 2 ^ Z.pos p) (SpecFloat.iter_pos shr_1 p r)
    /\ shr_m (SpecFloat.iter_pos shr_1 p r) = shr_m r / 2 ^ Z.pos p.
Proof.
  induction p as [p IH | p IH |]; intros N D r HD Hm Hloc; cbn [SpecFloat.iter_pos].
  - pose proof (shr_1_locates N D r HD Hm Hloc) as H1.
    pose proof (shr_1_m r Hm) as E1.
    assert (Hm1 : 0 <= shr_m (shr_1 r)) by (rewrite E1; apply Z.div_pos; lia).
    assert (Hp : 0 < 2 ^ Z.pos p) by (apply Z.pow_pos_nonneg; lia).
    destruct (IH N (2 * D) (shr_1 r) ltac:(lia) Hm1 H1) as [H2 E2].
    assert (Hm2 : 0 <= shr_m (SpecFloat.iter_pos shr_1 p (shr_1 r)))
      by (rewrite E2; apply Z.div_pos; lia).
    destruct (IH N (2 * D * 2 ^ Z.pos p) _ ltac:(nia) Hm2 H2) as [H3 E3].
    split.
    + replace (D * 2 ^ Z.pos p~1) with (2 * D * 2 ^ Z.pos p * 2 ^ Z.pos p)
        by (rewrite pow2_xI; ring).
      exact H3.
    + rewrite E3, E2, E1. rewrite !Z.div_div by lia. f_equal.
      rewrite pow2_xI. ring.
  - assert (Hp : 0 < 2 ^ Z.pos p) by (apply Z.pow_pos_nonneg; lia).
    destruct (IH N D r HD Hm Hloc) as [H2 E2].
    assert (Hm2 : 0 <= shr_m (SpecFloat.iter_pos shr_1 p r))
      by (rewrite E2; apply Z.div_pos; lia).
    destruct (IH N (D * 2 ^ Z.pos p) _ ltac:(nia) Hm2 H2) as [H3 E3].
    split.
    + replace (D * 2 ^ Z.pos p~0) with (D * 2 ^ Z.pos p * 2 ^ Z.pos p)
        by (rewrite pow2_xO; ring).
      exact H3.
    + rewrite E3, E2. rewrite !Z.div_div by lia. f_equal.
      rewrite pow2_xO. ring.
  - split.
    + replace (D * 2 ^ 1) with (2 * D) by (change (2 ^ 1) with 2; lia).
      apply shr_1_locates; assumption.
    + change (2 ^ 1) with 2. apply shr_1_m, Hm.
Qed.

(** Rounding to nearest, ties to even, on a located fraction. *)
Lemma round_nearest_even_locates (N D : Z) (r : shr_record) :
  0 < D -> locates N D r ->
  let k := round_nearest_even (shr_m r) (loc_of_shr_record r) in
  shr_m r <= k <= shr_m r + 1 /\ - D <= 2 * (N - k * D) <= D.
Proof.
  intros HD. destruct r as [m r s]. unfold locates. cbn [shr_m shr_r shr_s].
  intros (Hrest & Hr & Hs).
  destruct r, s; cbn [loc_of_shr_record round_nearest_even].
  - assert (D <= 2 * (N - m * D)) by (apply Hr; reflexivity). lia.
  - assert (D <= 2 * (N - m * D)) by (apply Hr; reflexivity).
    assert (2 * (N - m * D) = D).
    { destruct (Z.eq_dec (2 * (N - m * D)) D) as [E|E]; [exact E|].
      assert (false = true) by (apply Hs; lia). discriminate. }
    destruct (Z.even m); lia.
  - assert (~ D <= 2 * (N - m * D)) by (intros H; apply Hr in H; discriminate H). lia.
  - assert (~ D <= 2 * (N - m * D)) by (intros H; apply Hr in H; discriminate H). lia.
Qed.

Lemma digits2_pos_bounds (p : positive) :
  2 ^ (Z.pos (digits2_pos p) - 1) <= Z.pos p < 2 ^ Z.pos (digits2_pos p).
Proof.
  induction p as [p IH | p IH |]; cbn [digits2_pos].
  - rewrite Pos2Z.inj_succ. replace (Z.succ (Z.pos (digits2_pos p)) - 1)
      with (Z.succ (Z.pos (digits2_pos p) - 1)) by lia.
    rewrite !Z.pow_succ_r by lia. lia.
  - rewrite Pos2Z.inj_succ. replace (Z.succ (Z.pos (digits2_pos p)) - 1)
      with (Z.succ (Z.pos (digits2_pos p) - 1)) by lia.
    rewrite !Z.pow_succ_r by lia. lia.
  - cbn. lia.
Qed.

Lemma Zdigits2_unique (m n : Z) : 2 ^ (n - 1) <= m < 2 ^ n -> 0 < n -> Zdigits2 m = n.
Proof.
  intros [Hlo Hhi] Hn.
  assert (Hm : 0 < m).
  { eapply Z.lt_le_trans; [|exact Hlo]. apply Z.pow_pos_nonneg; lia. }
  destruct m as [|p|p]; try lia. cbn [Zdigits2].
  pose proof (digits2_pos_bounds p) as [Hl Hh].
  set (d := Z.pos (digits2_pos p)) in *.
  destruct (Z.lt_trichotomy d n) as [H | [H | H]]; [|exact H|].
  - exfalso. assert (2 ^ d <= 2 ^ (n - 1)) by (apply Z.pow_le_mono_r; lia). lia.
  - exfalso. assert (2 ^ n <= 2 ^ (d - 1)) by (apply Z.pow_le_mono_r; lia). lia.
Qed.

Lemma Zdigits2_ge (m n : Z) : 0 <= n -> 2 ^ n <= m -> n < Zdigits2 m.
Proof.
  intros Hn Hlo.
  assert (Hm : 0 < m).
  { eapply Z.lt_le_trans; [|exact Hlo]. apply Z.pow_pos_nonneg; lia. }
  destruct m as [|p|p]; try lia. cbn [Zdigits2].
  pose proof (digits2_pos_bounds p) as [_ Hh].
  apply (Z.pow_lt_mono_r_iff 2); lia.
Qed.

Lemma locates_of_loc_m (m : Z) (l : location) : shr_m (shr_record_of_loc m l) = m.
Proof. destruct l as [|[]]; reflexivity. Qed.

(** Shifting to 53 bits a mantissa of at least 53 bits. *)
Lemma shr_fexp_locates (m e : Z) (l : location) (N D : Z) :
  0 < D -> 2 ^ 52 <= m -> -1074 <= e ->
  locates N D (shr_record_of_loc m l) ->
  let j := Zdigits2 m - 53 in
  0 <= j
  /\ (snd (shr_fexp Js.prec Js.emax m e l)) = e + j
  /\ locates N (D * 2 ^ j) (fst (shr_fexp Js.prec Js.emax m e l))
  /\ 2 ^ 52 <= shr_m (fst (shr_fexp Js.prec Js.emax m e l)) < 2 ^ 53.
Proof.
  intros HD Hm He Hloc j.
  assert (Hd : 52 < Zdigits2 m) by (apply Zdigits2_ge; lia).
  assert (Hm0 : 0 < m) by (assert (0 < 2 ^ 52) by reflexivity; lia).
  assert (Hb : 2 ^ (Zdigits2 m - 1) <= m < 2 ^ Zdigits2 m).
  { destruct m as [|p|p]; try lia. apply digits2_pos_bounds. }
  unfold shr_fexp, shr, fexp, emin, Js.prec, Js.emax.
  replace (Z.max (Zdigits2 m + e - 53) (3 - 1024 - 53) - e) with j by (subst j; lia).
  split; [subst j; lia|].
  destruct j as [|p|p] eqn:Ej; cbn [fst snd]; try lia.
  - split; [lia|]. rewrite Z.mul_1_r. split; [exact Hloc|].
    rewrite locates_of_loc_m. replace (Zdigits2 m) with 53 in Hb by lia.
    cbn in Hb. cbn. lia.
  - split; [reflexivity|].
    destruct (iter_shr_1_locates p N D (shr_record_of_loc m l) HD) as [H1 E1];
      [rewrite locates_of_loc_m; lia | exact Hloc |].
    split; [exact H1|]. rewrite E1, locates_of_loc_m.
    assert (Hp : 0 < 2 ^ Z.pos p) by (apply Z.pow_pos_nonneg; lia).
    replace (Zdigits2 m) with (53 + Z.pos p) in Hb by lia.
    replace (53 + Z.pos p - 1) with (52 + Z.pos p) in Hb by lia.
    rewrite !Z.pow_add_r in Hb by lia. split.
    + apply Z.div_le_lower_bound; lia.
    + apply Z.div_lt_upper_bound; lia.
Qed.

(** [binary_round_aux] on a located fraction of at least 53 bits: the
    mantissa is the fraction at 53 bits rounded to nearest. *)
Lemma binary_round_aux_locates (sx : bool) (mx ex : Z) (lx : location) (N D : Z) :
  0 < D -> 2 ^ 52 <= mx -> -1074 <= ex -> ex + Zdigits2 mx <= 1023 ->
  locates N D (shr_record_of_loc mx lx) ->
  let j := Zdigits2 mx - 53 in
  exists (m : positive) (e k : Z),
    binary_round_aux Js.prec Js.emax sx mx ex lx = S754_finite sx m e
    /\ 0 <= j
    /\ 2 ^ 52 * (D * 2 ^ j) <= N < 2 ^ 53 * (D * 2 ^ j)
    /\ 2 ^ 52 <= k <= 2 ^ 53
    /\ - (D * 2 ^ j) <= 2 * (N - k * (D * 2 ^ j)) <= D * 2 ^ j
    /\ ((Z.pos m = k /\ e = ex + j /\ k < 2 ^ 53)
        \/ (Z.pos m = 2 ^ 52 /\ e = ex + j + 1 /\ k = 2 ^ 53)).
Proof.
  intros HD Hm He Hov Hloc j.
  destruct (shr_fexp_locates mx ex lx N D HD Hm He Hloc) as (Hj & E1 & L1 & B1).
  fold j in Hj, E1, L1.
  unfold binary_round_aux.
  destruct (shr_fexp Js.prec Js.emax mx ex lx) as [rec e1]. cbn [fst snd] in E1, L1, B1.
  assert (HDj : 0 < D * 2 ^ j).
  { assert (0 < 2 ^ j) by (apply Z.pow_pos_nonneg; lia). nia. }
  destruct (round_nearest_even_locates N (D * 2 ^ j) rec HDj L1) as [Hk Hnear].
  set (k := round_nearest_even (shr_m rec) (loc_of_shr_record rec)) in *.
  assert (Hrange : 2 ^ 52 * (D * 2 ^ j) <= N < 2 ^ 53 * (D * 2 ^ j)).
  { destruct L1 as [Hrest _]. nia. }
  assert (H53 : 2 ^ 53 = 9007199254740992) by reflexivity.
  assert (H52 : 2 ^ 52 = 4503599627370496) by reflexivity.
  destruct (Z.eq_dec k (2 ^ 53)) as [Ek | Ek].
  - (* the rounding carried to 2^53 *)
    assert (Hdig : Zdigits2 k = 54).
    { rewrite Ek. reflexivity. }
    unfold shr_fexp, shr, fexp, emin, Js.prec, Js.emax. rewrite Hdig.
    replace (Z.max (54 + e1 - 53) (3 - 1024 - 53) - e1) with 1 by lia.
    cbn [SpecFloat.iter_pos shr_record_of_loc]. rewrite Ek.
    cbn -[Z.pow Z.leb Z.add].
    replace (e1 + 1 <=? 1024 - 53) with true by (symmetry; apply Z.leb_le; lia).
    eexists _, (e1 + 1), k. split; [reflexivity|].
    split; [exact Hj|]. split; [exact Hrange|]. split; [lia|]. split; [exact Hnear|].
    right. split; [reflexivity|]. split; [lia | exact Ek].
  - assert (Hk53 : 2 ^ 52 <= k < 2 ^ 53) by lia.
    assert (Hdig : Zdigits2 k = 53) by (apply Zdigits2_unique; [exact Hk53 | lia]).
    unfold shr_fexp, shr, fexp, emin, Js.prec, Js.emax. rewrite Hdig.
    replace (Z.max (53 + e1 - 53) (3 - 1024 - 53) - e1) with 0 by lia.
    cbn [shr_record_of_loc shr_m fst snd].
    destruct k as [|p|p] eqn:Ekp; try lia.
    replace (e1 <=? 1024 - 53) with true by (symmetry; apply Z.leb_le; lia).
    exists p, e1, (Z.pos p). split; [reflexivity|].
    split; [exact Hj|]. split; [exact Hrange|]. split; [lia|]. split; [exact Hnear|].
    left. split; [reflexivity|]. split; [lia | lia].
Qed.


Lemma magnitude_power (m : positive) (e : Z) :
  (magnitude m e == inject_Z (Z.pos m) * 2 ^ e)%Q.
Proof.
  unfold magnitude. destruct (0 <=? e) eqn:E.
  - apply Z.leb_le in E. rewrite inject_Z_mult, Zpower_Qpower by exact E. reflexivity.
  - apply Z.leb_gt in E.
    assert (Hp : 0 < 2 ^ (- e)) by (apply Z.pow_pos_nonneg; lia).
    assert (Hpow : (2 ^ e == / inject_Z (2 ^ (- e)))%Q).
    { rewrite Zpower_Qpower by lia. rewrite <- Qpower_opp.
      replace (- - e) with e by lia. reflexivity. }
    rewrite Qmake_Qdiv. rewrite Z2Pos.id by exact Hp.
    rewrite Hpow. reflexivity.
Qed.

Lemma Qabs_scale (a u : Q) : (0 < u)%Q -> (Qabs (a * u) == Qabs a * u)%Q.
Proof.
  intros Hu. rewrite Qabs_Qmult, (Qabs_pos u) by (apply Qlt_le_weak, Hu). reflexivity.
Qed.

(** An integer within one half of a fraction is nearest to it among the
    integers. *)
Lemma nearest_integer (k N : Z) (D : positive) (j : Z) :
  - Z.pos D <= 2 * (N - k * Z.pos D) <= Z.pos D ->
  (Qabs (inject_Z k - (N # D)) <= Qabs (inject_Z j - (N # D)))%Q.
Proof.
  intros Hk.
  assert (E : forall z, (inject_Z z - (N # D) == (z * Z.pos D - N) # D)%Q).
  { intros z. unfold Qeq, Qminus, Qplus, Qopp, inject_Z. cbn [Qnum Qden].
    rewrite !Pos2Z.inj_mul. ring. }
  rewrite !E. unfold Qabs, Qle. cbn [Qnum Qden].
  apply Z.mul_le_mono_nonneg_r; [lia|].
  destruct (Z.lt_trichotomy j k) as [H | [-> | H]].
  - assert (j * Z.pos D <= k * Z.pos D - Z.pos D) by nia. lia.
  - lia.
  - assert (k * Z.pos D + Z.pos D <= j * Z.pos D) by nia. lia.
Qed.

(** A value beyond an integer, seen from the fraction, is no nearer than
    that integer. *)
Lemma beyond_integer (j : Z) (y x : Q) :
  (y <= inject_Z j)%Q -> (inject_Z j <= x)%Q ->
  (Qabs (inject_Z j - x) <= Qabs (y - x))%Q.
Proof.
  intros Hy Hx.
  rewrite (Qabs_neg (inject_Z j - x)), (Qabs_neg (y - x)) by lra. lra.
Qed.

Lemma to_Q_power (s : bool) (m : positive) (e : Z) :
  (Js.to_Q (S754_finite s m e)
   == (if s then - inject_Z (Z.pos m) else inject_Z (Z.pos m)) * 2 ^ e)%Q.
Proof.
  change (Js.to_Q (S754_finite s m e))
    with (if s then Qopp (magnitude m e) else magnitude m e).
  destruct s; rewrite magnitude_power; ring.
Qed.

Lemma pow2_pos (a : Z) : (0 < 2 ^ a)%Q.
Proof. apply Qpower_0_lt. reflexivity. Qed.

Lemma pow2_split (e a : Z) : (2 ^ e == 2 ^ (e - a) * 2 ^ a)%Q.
Proof.
  rewrite <- Qpower_plus by discriminate. replace (e - a + a) with e by lia. reflexivity.
Qed.

(** The multiple [k * 2^a] of the unit [2^a] that is nearest to a value
    of at least [2^52] units is nearest to it among all the dyadic numbers
    with a mantissa of 53 bits, whatever their exponent. *)
Lemma nearest_dyadic (k N : Z) (D : positive) (a : Z)
    (s' : bool) (m' : positive) (e' : Z) :
  2 ^ 52 * Z.pos D <= N ->
  - Z.pos D <= 2 * (N - k * Z.pos D) <= Z.pos D ->
  Z.pos m' < 2 ^ 53 ->
  (Qabs (inject_Z k * 2 ^ a - (N # D) * 2 ^ a)
   <= Qabs (Js.to_Q (S754_finite s' m' e') - (N # D) * 2 ^ a))%Q.
Proof.
  intros HN Hk Hm'.
  pose proof (pow2_pos a) as Hu.
  rewrite to_Q_power, (pow2_split e' a).
  set (t := e' - a). set (u := (2 ^ a)%Q) in *. set (x := N # D).
  set (y := ((if s' then - inject_Z (Z.pos m') else inject_Z (Z.pos m')) * 2 ^ t)%Q).
  assert (E1 : (inject_Z k * u - x * u == (inject_Z k - x) * u)%Q) by ring.
  assert (E2 : ((if s' then - inject_Z (Z.pos m') else inject_Z (Z.pos m'))
                * (2 ^ t * u) - x * u == (y - x) * u)%Q) by (subst y; ring).
  rewrite E1, E2, !Qabs_scale by exact Hu.
  apply Qmult_le_compat_r; [|apply Qlt_le_weak, Hu].
  assert (Hx52 : (inject_Z (2 ^ 52) <= x)%Q).
  { subst x. unfold Qle, inject_Z. cbn [Qnum Qden]. lia. }
  assert (Hx0 : (inject_Z 0 <= x)%Q).
  { eapply Qle_trans; [|exact Hx52]. unfold Qle, inject_Z. cbn. lia. }
  pose proof (pow2_pos t) as Ht.
  assert (Hmq : (0 <= inject_Z (Z.pos m'))%Q).
  { unfold Qle, inject_Z. cbn. lia. }
  destruct s'.
  - (* a negative number *)
    eapply Qle_trans; [apply (nearest_integer k N D 0 Hk)|].
    apply beyond_integer; [|exact Hx0].
    subst y. change (inject_Z 0) with 0%Q.
    assert (0 <= inject_Z (Z.pos m') * 2 ^ t)%Q
      by (apply Qmult_le_0_compat; [exact Hmq | apply Qlt_le_weak, Ht]).
    lra.
  - destruct (Z.le_gt_cases 0 t) as [Hpos | Hneg].
    + (* a multiple of the unit *)
      assert (Ey : (y == inject_Z (Z.pos m' * 2 ^ t))%Q).
      { subst y. rewrite inject_Z_mult, Zpower_Qpower by exact Hpos. reflexivity. }
      rewrite Ey. apply nearest_integer, Hk.
    + (* a number of a lower binade *)
      eapply Qle_trans; [apply (nearest_integer k N D (2 ^ 52) Hk)|].
      apply beyond_integer; [|exact Hx52].
      subst y.
      assert (Hhalf : (2 ^ t <= 1 # 2)%Q).
      { change (1 # 2)%Q with (2 ^ (-1))%Q. apply Qpower_le_compat_l; [lia|].
        unfold Qle; cbn; lia. }
      assert (Hm2 : (inject_Z (Z.pos m') * (1 # 2) <= inject_Z (2 ^ 52))%Q).
      { unfold Qle, Qmult, inject_Z. cbn [Qnum Qden].
        assert (2 ^ 53 = 2 * 2 ^ 52) by reflexivity. lia. }
      eapply Qle_trans; [|exact Hm2].
      rewrite (Qmult_comm _ (2 ^ t)), (Qmult_comm _ (1 # 2)).
      apply Qmult_le_compat_r; [exact Hhalf | exact Hmq].
Qed.

(** The quotient and remainder of [n * 2^s] by 100 that [SFdiv] rounds:
    at least 53 bits and the location of the fraction. *)
Lemma div_core_locates (n : positive) :
  let s := Z.max (60 - Zdigits2 (Z.pos n)) 0 in
  exists q l,
    SFdiv_core_binary Js.prec Js.emax (Z.pos n) 0 100 0 = (q, - s, l)
    /\ 2 ^ 52 <= q
    /\ Zdigits2 q <= Zdigits2 (Z.pos n) + s
    /\ locates (Z.pos n * 2 ^ s) 100 (shr_record_of_loc q l).
Proof.
  intros s.
  pose proof (digits2_pos_bounds n) as Hn.
  set (d := Z.pos (digits2_pos n)) in *.
  assert (Hd : 0 < d) by (subst d; lia).
  change (Zdigits2 (Z.pos n)) with d in s |- *.
  assert (Hs : 0 <= s) by (subst s; lia).
  assert (Hps : 0 < 2 ^ s) by (apply Z.pow_pos_nonneg; lia).
  unfold SFdiv_core_binary.
  change (Zdigits2 (Z.pos n)) with d. change (Zdigits2 100) with 7.
  unfold fexp, emin, Js.prec, Js.emax.
  replace (Z.min (Z.max (d + 0 - (7 + 0) - 53) (3 - 1024 - 53)) (0 - 0)) with (- s)
    by (subst s; lia).
  replace (0 - 0 - - s) with s by lia.
  assert (Em : match s with
               | 0 => Z.pos n
               | Z.pos _ => Z.shiftl (Z.pos n) s
               | Z.neg _ => 0
               end = Z.pos n * 2 ^ s).
  { destruct s as [|p|p] eqn:Es; [lia | | lia].
    rewrite Z.shiftl_mul_pow2 by lia. reflexivity. }
  rewrite Em. set (N := Z.pos n * 2 ^ s).
  pose proof (Z_div_mod N 100 ltac:(lia)) as Hdiv.
  destruct (Z.div_eucl N 100) as [q r]. destruct Hdiv as [HN Hr].
  assert (Hbig : 2 ^ 59 <= N).
  { subst N. destruct (Z.le_gt_cases 60 d) as [H60 | H60].
    - assert (2 ^ 59 <= 2 ^ (d - 1)) by (apply Z.pow_le_mono_r; lia). nia.
    - replace s with (60 - d) in * by (subst s; lia).
      assert (E : 2 ^ 59 = 2 ^ (d - 1) * 2 ^ (60 - d)).
      { rewrite <- Z.pow_add_r by lia. f_equal. lia. }
      rewrite E. apply Z.mul_le_mono_nonneg_r; lia. }
  assert (H59 : 2 ^ 59 = 576460752303423488) by reflexivity.
  assert (H52 : 2 ^ 52 = 4503599627370496) by reflexivity.
  exists q, (new_location 100 r). split; [reflexivity|].
  split; [lia|]. split.
  - assert (Hq : 0 < q) by lia.
    assert (Hlt : q < 2 ^ (d + s)).
    { rewrite Z.pow_add_r by lia. subst N. nia. }
    destruct q as [|pq|pq]; try lia. cbn [Zdigits2].
    pose proof (digits2_pos_bounds pq) as [Hlo _].
    apply Z.lt_succ_r. replace (Z.succ (d + s)) with (d + s + 1) by lia.
    apply (Z.pow_lt_mono_r_iff 2); [lia | lia|].
    replace (d + s + 1) with (Z.succ (d + s)) by lia. rewrite Z.pow_succ_r by lia.
    assert (2 ^ Z.pos (digits2_pos pq) = 2 * 2 ^ (Z.pos (digits2_pos pq) - 1)).
    { rewrite <- Z.pow_succ_r by lia. f_equal. lia. }
    lia.
  - unfold new_location. change (Z.even 100) with true. unfold new_location_even.
    unfold locates.
    destruct (r =? 0) eqn:Er.
    + apply Z.eqb_eq in Er. cbn [shr_record_of_loc shr_m shr_r shr_s].
      repeat split; intros; try lia; try discriminate.
    + apply Z.eqb_neq in Er.
      destruct (Z.compare_spec (2 * r) 100) as [Ec | Ec | Ec];
        cbn [shr_record_of_loc shr_m shr_r shr_s];
        repeat split; intros; try lia; try discriminate.
Qed.

(** Reading a decimal [n / 100] back: [SFdiv] returns a Number nearest to
    it. *)
Lemma parse_hundredths_nearest (s : bool) (n : positive) :
  Z.pos n < 2 ^ 900 ->
  exists m e,
    SFdiv Js.prec Js.emax (S754_finite s n 0) (S754_finite false 100 0)
    = S754_finite s m e
    /\ Z.pos m < 2 ^ 53
    /\ (Qabs (magnitude m e - (Z.pos n # 100)) <= Qabs (0 - (Z.pos n # 100)))%Q
    /\ forall s' m' e',
         Z.pos m' < 2 ^ 53 ->
         (Qabs (magnitude m e - (Z.pos n # 100))
          <= Qabs (Js.to_Q (S754_finite s' m' e') - (Z.pos n # 100)))%Q.
Proof.
  intros Hn.
  destruct (div_core_locates n) as (q & l & Ecore & Hq & Hdq & Hloc).
  set (sh := Z.max (60 - Zdigits2 (Z.pos n)) 0) in *.
  assert (Hdn : 0 < Zdigits2 (Z.pos n) <= 900).
  { cbn [Zdigits2]. split; [lia|].
    pose proof (digits2_pos_bounds n) as [Hlo _].
    assert (Z.pos (digits2_pos n) - 1 < 900); [|lia].
    apply (Z.pow_lt_mono_r_iff 2); lia. }
  unfold SFdiv. rewrite Ecore. rewrite Bool.xorb_false_r.
  destruct (binary_round_aux_locates s q (- sh) l (Z.pos n * 2 ^ sh) 100)
    as (m & e & k & Eround & Hj & Hrange & Hk & Hnear & Hval);
    [lia | exact Hq | lia | lia | exact Hloc |].
  set (j := Zdigits2 q - 53) in *.
  exists m, e. split; [exact Eround|].
  split; [destruct Hval as [(-> & _ & H) | (-> & _)]; [exact H | reflexivity]|].
  assert (Hpj : 0 < 2 ^ j) by (apply Z.pow_pos_nonneg; lia).
  assert (Hpsh : 0 < 2 ^ sh) by (apply Z.pow_pos_nonneg; lia).
  set (D := Z.to_pos (100 * 2 ^ j)).
  assert (ED : Z.pos D = 100 * 2 ^ j) by (subst D; rewrite Z2Pos.id; lia).
  set (a := - sh + j) in *.
  (* the decimal in units of 2^a *)
  assert (EX : (Z.pos n # 100 == (Z.pos n * 2 ^ sh # D) * 2 ^ a)%Q).
  { rewrite (Qmake_Qdiv (Z.pos n) 100), (Qmake_Qdiv (Z.pos n * 2 ^ sh) D), ED.
    rewrite !inject_Z_mult, !Zpower_Qpower by lia.
    subst a. rewrite Qpower_plus, Qpower_opp by discriminate.
    pose proof (pow2_pos sh) as H1. pose proof (pow2_pos j) as H2.
    change (inject_Z 2) with 2%Q.
    set (A := (2 ^ sh)%Q) in *. set (B := (2 ^ j)%Q) in *.
    field. split; apply Qnot_eq_sym, Qlt_not_eq; assumption. }
  (* the result in units of 2^a *)
  assert (ER : (magnitude m e == inject_Z k * 2 ^ a)%Q).
  { rewrite magnitude_power.
    destruct Hval as [(-> & -> & _) | (-> & -> & ->)]; [reflexivity|].
    subst a. replace (- sh + j + 1) with (1 + (- sh + j)) by lia.
    rewrite Qpower_plus by discriminate. change (2 ^ 53) with (2 * 2 ^ 52).
    rewrite inject_Z_mult. change (inject_Z 2) with (2 ^ 1)%Q. ring. }
  split.
  - rewrite EX, ER. pose proof (pow2_pos a) as Hu.
    assert (E0 : (0 - (Z.pos n * 2 ^ sh # D) * 2 ^ a
                  == (inject_Z 0 - (Z.pos n * 2 ^ sh # D)) * 2 ^ a)%Q)
      by (change (inject_Z 0) with 0%Q; ring).
    assert (E1 : (inject_Z k * 2 ^ a - (Z.pos n * 2 ^ sh # D) * 2 ^ a
                  == (inject_Z k - (Z.pos n * 2 ^ sh # D)) * 2 ^ a)%Q) by ring.
    rewrite E0, E1, !Qabs_scale by exact Hu.
    apply Qmult_le_compat_r; [|apply Qlt_le_weak, Hu].
    apply nearest_integer. rewrite ED. exact Hnear.
  - intros s' m' e' Hm'. rewrite EX, ER.
    apply nearest_dyadic; [rewrite ED; lia | rewrite ED; exact Hnear | exact Hm'].
Qed.

Lemma nearest_Number_wd (v w : Q) (x : Js.number) :
  (v == w)%Q -> nearest_Number v x -> nearest_Number w x.
Proof.
  intros E [Hx H]. split; [exact Hx|].
  intros y Hy. rewrite <- E. apply H, Hy.
Qed.

Lemma nearest_Number_exact (v : Q) (x : Js.number) :
  representable x -> (Js.to_Q x == v)%Q -> nearest_Number v x.
Proof.
  intros Hx E. split; [exact Hx|].
  intros y _. rewrite E.
  assert (E0 : (v - v == 0)%Q) by ring. rewrite E0. apply Qabs_nonneg.
Qed.

Lemma nearest_hundredths_nonneg (m : positive) (e : Z) : 0 <= Js.nearest_hundredths m e.
Proof.
  unfold Js.nearest_hundredths. destruct (0 <=? e) eqn:E.
  - apply Z.leb_le in E. assert (0 < 2 ^ e) by (apply Z.pow_pos_nonneg; lia). nia.
  - apply Z.leb_gt in E.
    assert (0 < 2 ^ (- e)) by (apply Z.pow_pos_nonneg; lia).
    assert (0 < 2 ^ (- e + 1)) by (apply Z.pow_pos_nonneg; lia).
    apply Z.div_pos; lia.
Qed.

(** Below 10^21 the number of hundredths is below 10^24. *)
Lemma nearest_hundredths_bound (m : positive) (e : Z) :
  Js.at_least_1e21 m e = false -> Js.nearest_hundredths m e < 10 ^ 24.
Proof.
  unfold Js.at_least_1e21, Js.nearest_hundredths.
  assert (E21 : 10 ^ 21 = 1000000000000000000000) by reflexivity.
  assert (E24 : 10 ^ 24 = 1000000000000000000000000) by reflexivity.
  rewrite E21, E24.
  destruct (0 <=? e) eqn:E; intros H; apply Z.leb_gt in H.
  - lia.
  - apply Z.leb_gt in E.
    assert (Hp : 0 < 2 ^ (- e)) by (apply Z.pow_pos_nonneg; lia).
    replace (- e + 1) with (Z.succ (- e)) by lia. rewrite Z.pow_succ_r by lia.
    apply Z.div_lt_upper_bound; lia.
Qed.

(** Reading back the text of [toFixed(2)] gives a Number nearest to the
    decimal the text denotes. *)
Lemma parseFloat_nearest (x : Js.number) :
  representable x ->
  nearest_Number (text_value (Js.toFixed2 x)) (Js.parseFloat (Js.toFixed2 x)).
Proof.
  destruct x as [s | s | | s m e]; cbn [representable]; intros Hx; try contradiction.
  - cbn [Js.toFixed2 Js.parseFloat text_value].
    apply nearest_Number_exact; [exact I | reflexivity].
  - cbn [Js.toFixed2]. destruct (Js.at_least_1e21 m e) eqn:Ebig.
    + cbn [Js.parseFloat text_value]. apply nearest_Number_exact; [exact Hx | reflexivity].
    + pose proof (nearest_hundredths_nonneg m e) as H0.
      pose proof (nearest_hundredths_bound m e Ebig) as H24.
      cbn [Js.parseFloat text_value].
      destruct (Js.nearest_hundredths m e) as [|n|n]; [| |lia].
      * apply nearest_Number_exact; [exact I|]. destruct s; reflexivity.
      * assert (Hn : Z.pos n < 2 ^ 900).
        { eapply Z.lt_trans; [exact H24|]. reflexivity. }
        destruct (parse_hundredths_nearest s n Hn) as (m1 & e1 & -> & Hm1 & Hzero & Hnear).
        assert (Ev : ((if s then inject_Z (- Z.pos n) else inject_Z (Z.pos n)) / 100
                      == if s then - (Z.pos n # 100) else Z.pos n # 100)%Q).
        { destruct s; unfold Qeq, Qdiv, Qmult, Qinv, Qopp, inject_Z; cbn; lia. }
        apply (nearest_Number_wd _ _ _ (Qeq_sym _ _ Ev)).
        split; [exact Hm1|].
        intros y Hy. rewrite to_Q_finite.
        destruct s.
        -- (* a negative decimal: compare the negated numbers *)
           assert (El : (- magnitude m1 e1 - - (Z.pos n # 100)
                         == - (magnitude m1 e1 - (Z.pos n # 100)))%Q) by ring.
           rewrite El, Qabs_opp.
           destruct y as [sy | sy | | sy my ey]; cbn [representable] in Hy;
             try contradiction.
           ++ cbn [Js.to_Q].
              assert (Er : (0 - - (Z.pos n # 100) == - (0 - (Z.pos n # 100)))%Q) by ring.
              rewrite Er, Qabs_opp. exact Hzero.
           ++ assert (Er : (Js.to_Q (S754_finite sy my ey) - - (Z.pos n # 100)
                            == - (Js.to_Q (S754_finite (negb sy) my ey)
                                  - (Z.pos n # 100)))%Q).
              { rewrite !to_Q_finite. destruct sy; cbn [negb]; ring. }
              rewrite Er, Qabs_opp. apply Hnear, Hy.
        -- destruct y as [sy | sy | | sy my ey]; cbn [representable] in Hy;
             try contradiction.
           ++ exact Hzero.
           ++ apply Hnear, Hy.
Qed.

(** The Number a conversion returns is nearest to the product rounded to
    two decimal places, half away from zero. *)
Lemma convert_nearest (price rate : Js.number) :
  Js.is_finite (Js.mul price rate) = true ->
  nearest_Number (round2_half_away (Js.to_Q (Js.mul price rate))) (convert price rate).
Proof.
  intros Hfin. unfold convert.
  assert (Hm : forall s m e, Js.mul price rate = S754_finite s m e -> Z.pos m < 2 ^ 53).
  { intros s m e. apply mul_mantissa. }
  apply (nearest_Number_wd _ _ _ (toFixed2_rounds _ Hm Hfin)).
  apply parseFloat_nearest.
  destruct (Js.mul price rate) as [s | s | | s m e] eqn:E; try discriminate Hfin.
  - exact I.
  - exact (Hm s m e eq_refl).
Qed.


(** C7: whenever a rate is found for the resolved currency, whatever the
    base price (zero and negative included), [convertedPrice] is non-null
    and is [parseFloat((basePrice * rate).toFixed(2))]; when the product
    is finite, that Number is a Number nearest to the product rounded to
    two decimal places, half away from zero: the text of [toFixed(2)]
    denotes that rounded value and no Number is nearer to it than the one
    returned. *)
Theorem C7_converted_price_is_rounded (o : Options) (q : QueryLayer) (st : HookState)
    (code : string) (response : ExchangeRateResponse)
    (rates : gmap string Js.number) (rate : Js.number) :
  reachable st ->
  st_localCurrency st = Some code ->
  rateResponse o q st = Some response ->
  conversion_rates response = Some rates ->
  rates !! code = Some rate ->
  let product := Js.mul (basePrice o) rate in
  exists price,
    convertedPrice (snapshot o q st) = Some price
    /\ price = Js.parseFloat (Js.toFixed2 product)
    /\ (Js.is_finite product = true ->
        (text_value (Js.toFixed2 product) == round2_half_away (Js.to_Q product))%Q
        /\ nearest_Number (round2_half_away (Js.to_Q product)) price).
Proof.
  intros Hr Hl Hd Hc Hrate product.
  pose proof (reachable_local_truthy st code Hr Hl) as Ht.
  destruct (render_sources o q st Hr) as (k & m & _ & Hm & Hs).
  exists (convert (basePrice o) rate). split; [|split; [reflexivity|]].
  - rewrite Hs. cbn [convertedPrice]. rewrite Hm, Hl, Hd.
    unfold mismatch_applies, exchangeRate_of, has_rate. rewrite Hc, Ht, Hrate.
    rewrite bool_decide_eq_true_2 by eauto. reflexivity.
  - intros Hfin. split.
    + apply toFixed2_rounds; [|exact Hfin]. intros s0 m0 e0. apply mul_mantissa.
    + apply convert_nearest, Hfin.
Qed.

(** 19.99 at 0.88: the product 17.5912 is returned as 17.59. *)
Lemma C7_converted_price_is_rounded_witness :
  let o := Scenario.with_price (Js.hundredths 1999)
             (Scenario.with_manual "EUR" Scenario.request) in
  let q := Scenario.ratesCached in
  let product := Js.mul (Js.hundredths 1999) (Js.hundredths 88) in
  reachable (mount o)
  /\ st_localCurrency (mount o) = Some "EUR"
  /\ Scenario.table !! "EUR" = Some (Js.hundredths 88)
  /\ Js.is_finite product = true
  /\ convertedPrice (snapshot o q (mount o)) = Some (Js.hundredths 1759)
  /\ (round2_half_away (Js.to_Q product) == 1759 # 100)%Q
  /\ nearest_Number (1759 # 100) (Js.hundredths 1759).
Proof.
  cbv zeta.
  split; [constructor|]. split; [reflexivity|]. split; [reflexivity|].
  split; [reflexivity|].
  destruct (C7_converted_price_is_rounded
              (Scenario.with_price (Js.hundredths 1999)
                 (Scenario.with_manual "EUR" Scenario.request))
              Scenario.ratesCached
              (mount (Scenario.with_price (Js.hundredths 1999)
                        (Scenario.with_manual "EUR" Scenario.request)))
              "EUR" Scenario.rates Scenario.table
              (Js.hundredths 88) (reach_mount _) eq_refl eq_refl eq_refl eq_refl)
    as (price & Hprice & Hval & Hround).
  destruct (Hround eq_refl) as [Htext Hnear].
  assert (Hv : (round2_half_away
                  (Js.to_Q (Js.mul (Js.hundredths 1999) (Js.hundredths 88)))
                == 1759 # 100)%Q).
  { rewrite <- Htext. vm_compute. reflexivity. }
  split; [rewrite Hprice, Hval; vm_compute; reflexivity|].
  split; [exact Hv|].
  apply (nearest_Number_wd _ _ _ Hv). rewrite Hval in Hnear.
  exact Hnear.
Defined.


(* ===================================================================== *)
(** * What a render may invoke *)
(* ===================================================================== *)

(** The callbacks of one render: none, [onSuccess] alone, or [onError]
    alone. *)
Lemma render_calls_cases (o : Options) (q : QueryLayer) (st : HookState) :
  reachable st ->
  let out := useCurrencyConverter o q st in
  let r := result_value (returned out) in
  calls out = []
  \/ (exists f, calls out = [CallOnSuccess f (returned out)]
                /\ isLoading r = false /\ error r = None /\ is_Some (convertedPrice r))
  \/ (exists g e, calls out = [CallOnError g e]
                  /\ isLoading r = false /\ error r = Some e).
Proof.
  intros Hr out r.
  destruct (snapshot_render o q st Hr) as (Hl & He & Hc).
  unfold snapshot in Hl, He, Hc. fold out in Hl, He, Hc. fold r in Hl, He, Hc.
  assert (Hcalls : calls out = success_calls o q st ++ error_calls o q st
                   /\ returned out = (slot_result o q st).1.1).
  { subst out. rewrite render_fields. split; reflexivity. }
  destruct Hcalls as [-> ->]. rewrite Hl, He, Hc.
  unfold success_calls, error_calls.
  destruct (render_isLoading o q (st_localCurrency st)).
  { rewrite !andb_false_r. left. reflexivity. }
  rewrite !andb_true_r.
  destruct (render_error o q st) as [e|].
  - rewrite (bool_decide_eq_true_2 (is_Some (Some e))) by eauto.
    rewrite andb_false_r. cbn [negb andb app].
    destruct (effect_due (errorEffect st) _); [|left; reflexivity].
    destruct (onError o) as [g|]; [|left; reflexivity].
    right; right. exists g, e. auto.
  - rewrite (bool_decide_eq_false_2 (is_Some (@None Error))) by (intros [? ?]; discriminate).
    rewrite andb_true_r.
    assert (Hnil : forall b : bool, (if b then [] else []) = ([] : list Call))
      by (intros []; reflexivity).
    cbv iota. rewrite Hnil, app_nil_r.
    destruct (effect_due (successEffect st) _); [|left; reflexivity].
    destruct (bool_decide (is_Some (render_converted o q st))) eqn:Ec; [|left; reflexivity].
    destruct (onSuccess o) as [f|]; [|left; reflexivity].
    right; left. exists f. apply bool_decide_eq_true in Ec. auto.
Qed.

(** X1: a render from a reachable state invokes at most one callback and
    none while loading; [onSuccess] receives the very object the hook
    returns, settled, without error and with a price; [onError] receives
    the error of the returned snapshot. *)
Theorem callbacks_exclusive (o : Options) (q : QueryLayer) (st : HookState) :
  reachable st ->
  let out := useCurrencyConverter o q st in
  (length (calls out) <= 1)%nat
  /\ (isLoading (result_value (returned out)) = true -> calls out = [])
  /\ (forall f d,
        CallOnSuccess f d ∈ calls out ->
        d = returned out
        /\ isLoading (result_value d) = false
        /\ error (result_value d) = None
        /\ is_Some (convertedPrice (result_value d)))
  /\ (forall g e,
        CallOnError g e ∈ calls out ->
        error (result_value (returned out)) = Some e
        /\ isLoading (result_value (returned out)) = false).
Proof.
  intros Hr out.
  destruct (render_calls_cases o q st Hr) as [H | [(f & H & Hl & He & Hc) | (g & e & H & Hl & He)]];
    fold out in H; rewrite H.
  - split; [cbn; lia|]. split; [reflexivity|].
    split; intros ? ? Hin; inversion Hin.
  - fold out in Hl, He, Hc.
    split; [cbn; lia|]. split; [congruence|]. split.
    + intros f' d Hin. apply list_elem_of_singleton in Hin. injection Hin as -> ->. auto.
    + intros g e Hin. apply list_elem_of_singleton in Hin. discriminate Hin.
  - fold out in Hl, He.
    split; [cbn; lia|]. split; [congruence|]. split.
    + intros f d Hin. apply list_elem_of_singleton in Hin. discriminate Hin.
    + intros g' e' Hin. apply list_elem_of_singleton in Hin. injection Hin as -> ->. auto.
Qed.

Lemma callbacks_exclusive_witness :
  let o := Scenario.with_manual "GBP" Scenario.request in
  let out := useCurrencyConverter o Scenario.ratesCached (mount o) in
  reachable (mount o)
  /\ calls out = [CallOnSuccess 1%nat (returned out)]
  /\ (length (calls out) <= 1)%nat.
Proof.
  cbv zeta.
  split; [constructor|]. split; [reflexivity|].
  exact (proj1 (callbacks_exclusive (Scenario.with_manual "GBP" Scenario.request)
                  Scenario.ratesCached _ (reach_mount _))).
Defined.

(* ===================================================================== *)
(** * When the rate request may start *)
(* ===================================================================== *)

Lemma unresolved_stays (o : Options) (q : QueryLayer) (st : HookState) :
  st_localCurrency st = None ->
  unresolvable (mkRender o q) ->
  st_localCurrency (state (useCurrencyConverter o q st)) = None.
Proof.
  intros Hl [Hm Hg]. cbn [r_options r_queries] in Hm, Hg.
  rewrite render_fields. cbn [state st_localCurrency].
  unfold currencyEffect_body. rewrite Hm, Hg, Hl.
  destruct (effect_due _ _); reflexivity.
Qed.

(** What a render returns while the target currency is unresolved. *)
Lemma unresolved_render (o : Options) (q : QueryLayer) (st : HookState) :
  reachable st ->
  st_localCurrency st = None ->
  let out := useCurrencyConverter o q st in
  enabled (exchangeQuery out) = false
  /\ (requestUrl (exchangeQuery out) ∉ allowed_requests out)
  /\ localCurrency (result_value (returned out)) = None
  /\ convertedPrice (result_value (returned out)) = None
  /\ exchangeRate (result_value (returned out)) = None.
Proof.
  intros Hr Hl out.
  destruct (render_enabled o q st (reachable_coherent st Hr)) as [_ He].
  fold out in He. rewrite Hl in He. cbn in He.
  destruct (render_sources o q st Hr) as (k & m & _ & _ & Hs).
  unfold snapshot in Hs. fold out in Hs. rewrite Hs, Hl. cbn.
  split; [exact He|]. split; [|repeat split].
  unfold allowed_requests. rewrite He, app_nil_r.
  destruct (enabled (geolocationQuery out)); [|apply not_elem_of_nil].
  rewrite list_elem_of_singleton. subst out. rewrite render_fields. cbn.
  apply request_urls_differ.
Qed.

(** Renders of one request against one query layer that cannot resolve
    the currency: what holds of a render without resolved currency holds
    of each of them. *)
Lemma unresolved_replicate (P : RenderOut -> Prop) (o : Options) (q : QueryLayer) :
  unresolvable (mkRender o q) ->
  (forall st, reachable st -> st_localCurrency st = None ->
              P (useCurrencyConverter o q st)) ->
  forall n st,
    reachable st -> st_localCurrency st = None ->
    Forall P (run st (replicate n (mkRender o q))).
Proof.
  intros Hun Hstep n. induction n as [|n IH]; intros st Hr Hl; cbn [replicate run].
  - constructor.
  - cbn [r_options r_queries]. constructor.
    + apply Hstep; assumption.
    + apply IH; [constructor; exact Hr | apply unresolved_stays; assumption].
Qed.

(** X2: the rate observer is enabled exactly when a target currency is
    resolved and the key is not blank; hence from a state without a
    resolved currency, as long as no manual currency is supplied and the
    geolocation data names no currency, no render allows the rate request
    or returns a currency, a rate or a price. *)
Theorem rate_request_awaits_currency (st : HookState) :
  reachable st ->
  (forall o q,
     enabled (exchangeQuery (useCurrencyConverter o q st)) = true
     <-> is_Some (st_localCurrency st) /\ keyIsBlank (apiKey o) = false)
  /\ (st_localCurrency st = None ->
      forall rs,
        Forall unresolvable rs ->
        Forall (fun out =>
                  enabled (exchangeQuery out) = false
                  /\ (requestUrl (exchangeQuery out) ∉ allowed_requests out)
                  /\ localCurrency (result_value (returned out)) = None
                  /\ convertedPrice (result_value (returned out)) = None
                  /\ exchangeRate (result_value (returned out)) = None)
          (run st rs)).
Proof.
  intros Hr. split.
  - intros o q.
    destruct (render_enabled o q st (reachable_coherent st Hr)) as [_ ->].
    rewrite andb_true_iff, negb_true_iff. split.
    + intros [Ht Hk]. split; [|exact Hk].
      destruct (st_localCurrency st); [eauto | discriminate Ht].
    + intros [[c Hc] Hk]. split; [|exact Hk].
      rewrite Hc. cbn. apply (reachable_local_truthy st c Hr Hc).
  - intros Hl rs Hrs. revert st Hr Hl.
    induction Hrs as [|[o q] rs Hx _ IH]; intros st Hr Hl; cbn [run].
    + constructor.
    + cbn [r_options r_queries]. constructor.
      * apply unresolved_render; assumption.
      * apply IH; [constructor; exact Hr | apply unresolved_stays; assumption].
Qed.

Lemma rate_request_awaits_currency_witness :
  let o := Scenario.request in
  let rs := [mkRender o Scenario.emptyCache; mkRender o Scenario.ratesCached] in
  reachable (mount o)
  /\ st_localCurrency (mount o) = None
  /\ Forall unresolvable rs
  /\ Forall (fun out => enabled (exchangeQuery out) = false) (run (mount o) rs).
Proof.
  cbv zeta.
  assert (Hrs : Forall unresolvable
                  [mkRender Scenario.request Scenario.emptyCache;
                   mkRender Scenario.request Scenario.ratesCached]).
  { repeat constructor. }
  split; [constructor|]. split; [reflexivity|]. split; [exact Hrs|].
  eapply Forall_impl.
  - exact (proj2 (rate_request_awaits_currency (mount Scenario.request) (reach_mount _))
             eq_refl _ Hrs).
  - intros out H. exact (proj1 H).
Defined.

(* ===================================================================== *)
(** * The target currency follows the inputs *)
(* ===================================================================== *)

Lemma reachable_geo_synced (st : HookState) : reachable st -> geo_synced st.
Proof.
  induction 1 as [o | o q st _ IH]; intros manual geo.
  - discriminate.
  - rewrite render_fields. cbn [state currencyEffect st_localCurrency].
    unfold render_currencyDeps. intros [= <- <-] Hm Hg.
    destruct (effect_due _ _) eqn:Edue.
    + unfold currencyEffect_body. rewrite Hm, Hg. reflexivity.
    + unfold effect_due in Edue.
      destruct (currencyEffect st) as [d|] eqn:Ed; [|discriminate Edue].
      apply negb_false_iff, bool_decide_eq_true in Edue. subst d.
      apply (IH _ _ Ed Hm Hg).
Qed.

(** X3: after every render the target currency is what the currency effect
    computes from the inputs of that render, whether or not its dependency
    array let it run: the uppercased manual currency if one is supplied,
    else the currency of the geolocation data held if it names one, else
    the currency already resolved. *)
Theorem local_currency_follows_inputs (o : Options) (q : QueryLayer) (st : HookState) :
  reachable st ->
  st_localCurrency (state (useCurrencyConverter o q st))
  = currencyEffect_body (upperManualCurrency o)
      (geo_currency <$> q_data (geolocation q)) (st_localCurrency st).
Proof.
  intros Hr. rewrite render_fields. cbn [state st_localCurrency].
  destruct (effect_due _ _) eqn:Edue; [reflexivity|].
  unfold effect_due in Edue.
  destruct (currencyEffect st) as [d|] eqn:Ed; [|discriminate Edue].
  apply negb_false_iff, bool_decide_eq_true in Edue. subst d.
  unfold render_currencyDeps in Ed. unfold currencyEffect_body.
  destruct (Js.truthy_opt (upperManualCurrency o)) eqn:Em.
  - apply (reachable_currency_synced st Hr _ _ Ed Em).
  - destruct (Js.truthy_opt (geo_currency <$> q_data (geolocation q))) eqn:Eg.
    + apply (reachable_geo_synced st Hr _ _ Ed Em Eg).
    + reflexivity.
Qed.

Lemma local_currency_follows_inputs_witness :
  let o := Scenario.request in
  let st := run_state (mount o) [mkRender o (Scenario.located "EUR")] in
  reachable st
  /\ st_localCurrency st = Some "EUR"
  /\ st_localCurrency (state (useCurrencyConverter o (Scenario.located "GBP") st))
     = Some "GBP".
Proof.
  cbv zeta.
  assert (Hr : reachable (run_state (mount Scenario.request)
                            [mkRender Scenario.request (Scenario.located "EUR")])).
  { apply reachable_run_state. constructor. }
  split; [exact Hr|]. split; [reflexivity|].
  rewrite (local_currency_follows_inputs Scenario.request (Scenario.located "GBP") _ Hr).
  reflexivity.
Defined.

(* ===================================================================== *)
(** * The rate returned and the price *)
(* ===================================================================== *)

Lemma is_lower_char_upper (c : ascii) : Js.is_lower (Js.char_upper c) = false.
Proof. destruct c as [[] [] [] [] [] [] [] []]; reflexivity. Qed.

Lemma toUpperCase_no_lower (s : string) : has_lower (Js.toUpperCase s) = false.
Proof.
  induction s as [|c s IH]; [reflexivity|].
  cbn [Js.toUpperCase has_lower]. rewrite is_lower_char_upper, IH. reflexivity.
Qed.

(** The names inherited from [Object.prototype] all hold a lowercase
    letter, so no uppercased code is one of them. *)
Lemma inherited_has_lower (name : string) :
  inherited name = true -> has_lower name = true.
Proof.
  unfold inherited, objectPrototype. rewrite bool_decide_eq_true.
  rewrite !elem_of_cons, elem_of_nil.
  intros H. repeat (destruct H as [-> | H]; [reflexivity|]). destruct H.
Qed.

Lemma toUpperCase_not_inherited (s : string) : inherited (Js.toUpperCase s) = false.
Proof.
  destruct (inherited (Js.toUpperCase s)) eqn:E; [|reflexivity].
  apply inherited_has_lower in E. rewrite toUpperCase_no_lower in E. discriminate E.
Qed.

(** What a non-null [exchangeRate] of the snapshot is, with the price next
    to it. *)
Lemma exchange_rate_sources (o : Options) (q : QueryLayer) (st : HookState) (r : Rate) :
  reachable st ->
  exchangeRate (snapshot o q st) = Some r ->
  exists code response rates,
    localCurrency (snapshot o q st) = Some code
    /\ rateResponse o q st = Some response
    /\ conversion_rates response = Some rates
    /\ ((exists rate,
           r = Quoted rate
           /\ rates !! code = Some rate
           /\ Js.number_truthy rate = true
           /\ convertedPrice (snapshot o q st) = Some (convert (basePrice o) rate))
        \/ (r = Inherited code
            /\ rates !! code = None
            /\ inherited code = true
            /\ mismatchError o q st = None
            /\ convertedPrice (snapshot o q st) = Some S754_nan)).
Proof.
  intros Hr. destruct (render_sources o q st Hr) as (k & m & _ & Hm & Hs).
  rewrite Hs. cbn [exchangeRate convertedPrice localCurrency]. rewrite Hm.
  unfold mismatch_applies, exchangeRate_of, has_rate.
  destruct (st_localCurrency st) as [code|]; [|discriminate].
  destruct (rateResponse o q st) as [response|] eqn:Eresp; [|discriminate].
  destruct (conversion_rates response) as [rates|] eqn:Erates; [|discriminate].
  destruct (Js.truthy code); [|discriminate].
  destruct (rates !! code) as [x|] eqn:Ex.
  - cbn [rate_or_null]. destruct (Js.number_truthy x) eqn:Et; [|discriminate].
    intros [= <-]. rewrite bool_decide_eq_true_2 by eauto. cbn.
    exists code, response, rates.
    split; [done|]. split; [done|]. split; [done|].
    left. exists x. repeat split; done.
  - destruct (inherited code) eqn:Ei; [|discriminate].
    cbn [rate_or_null]. intros [= <-].
    rewrite bool_decide_eq_false_2 by (intros [? ?]; discriminate). cbn.
    rewrite convert_nan.
    exists code, response, rates.
    split; [done|]. split; [done|]. split; [done|].
    right. repeat split; done.
Qed.

(** X4: whenever the returned snapshot carries an exchange rate, either it
    is the non-zero rate the table held quotes for the resolved currency
    and the snapshot carries the price converted at that rate, or the
    resolved currency is only the name of a property the table inherits
    from [Object.prototype] (as [constructor]): then the "rate" is that
    member, no mismatch error is produced and the price is [NaN]. No
    uppercased code is such a name, so the second case needs a currency
    that came from the geolocation data. *)
Theorem exchange_rate_implies_price (o : Options) (q : QueryLayer) (st : HookState)
    (r : Rate) :
  reachable st ->
  exchangeRate (snapshot o q st) = Some r ->
  (exists code response rates,
     localCurrency (snapshot o q st) = Some code
     /\ rateResponse o q st = Some response
     /\ conversion_rates response = Some rates
     /\ ((exists rate,
            r = Quoted rate
            /\ rates !! code = Some rate
            /\ Js.number_truthy rate = true
            /\ convertedPrice (snapshot o q st) = Some (convert (basePrice o) rate))
         \/ (r = Inherited code
             /\ rates !! code = None
             /\ inherited code = true
             /\ mismatchError o q st = None
             /\ convertedPrice (snapshot o q st) = Some S754_nan)))
  /\ (forall s, inherited (Js.toUpperCase s) = false).
Proof.
  intros Hr Hrate. split.
  - exact (exchange_rate_sources o q st r Hr Hrate).
  - exact toUpperCase_not_inherited.
Qed.

Lemma exchange_rate_implies_price_witness :
  let o := Scenario.request in
  let q := Scenario.located "constructor" in
  let st := state (useCurrencyConverter o q (mount o)) in
  reachable st
  /\ exchangeRate (snapshot o q st) = Some (Inherited "constructor")
  /\ convertedPrice (snapshot o q st) = Some S754_nan
  /\ error (snapshot o q st) = None
  /\ exists code response rates,
       localCurrency (snapshot o q st) = Some code
       /\ rateResponse o q st = Some response
       /\ conversion_rates response = Some rates
       /\ rates !! code = None.
Proof.
  cbv zeta.
  assert (Hr : reachable (state (useCurrencyConverter Scenario.request
                                   (Scenario.located "constructor")
                                   (mount Scenario.request)))).
  { do 2 constructor. }
  split; [exact Hr|]. split; [reflexivity|]. split; [reflexivity|].
  split; [reflexivity|].
  destruct (proj1 (exchange_rate_implies_price Scenario.request
                     (Scenario.located "constructor") _ (Inherited "constructor")
                     Hr eq_refl))
    as (code & response & rates & Hl & Hresp & Hrates & [(x & Hx & _) | (_ & Hnone & _)]).
  - discriminate Hx.
  - exists code, response, rates. auto.
Defined.

Lemma found_rate_converts (o : Options) (q : QueryLayer) (st : HookState)
    (code : string) (response : ExchangeRateResponse)
    (rates : gmap string Js.number) (rate : Js.number) :
  reachable st ->
  st_localCurrency st = Some code ->
  rateResponse o q st = Some response ->
  conversion_rates response = Some rates ->
  rates !! code = Some rate ->
  convertedPrice (snapshot o q st) = Some (convert (basePrice o) rate).
Proof.
  intros Hr Hl Hresp Hrates Hrate.
  destruct (render_sources o q st Hr) as (k & m & _ & Hm & Hs).
  rewrite Hs. cbn [convertedPrice]. rewrite Hm, Hl, Hresp.
  unfold mismatch_applies, exchangeRate_of, has_rate.
  rewrite Hrates, Hrate, (reachable_local_truthy st code Hr Hl).
  rewrite bool_decide_eq_true_2 by eauto. reflexivity.
Qed.

(* ===================================================================== *)
(** * The price of a negated amount *)
(* ===================================================================== *)

Lemma xorb_negb_l (a b : bool) : xorb (negb a) b = negb (xorb a b).
Proof. destruct a, b; reflexivity. Qed.

Lemma binary_round_aux_opp (s : bool) (m e : Z) (l : location) :
  binary_round_aux Js.prec Js.emax (negb s) m e l
  = SFopp (binary_round_aux Js.prec Js.emax s m e l).
Proof.
  unfold binary_round_aux.
  destruct (shr_fexp Js.prec Js.emax m e l) as [mrs e'].
  destruct (shr_fexp Js.prec Js.emax _ e' loc_Exact) as [mrs' e''].
  destruct (shr_m mrs'); [reflexivity | | reflexivity].
  destruct (e'' <=? Js.emax - Js.prec); reflexivity.
Qed.

Lemma mul_negate (x y : Js.number) : Js.mul (negate x) y = negate (Js.mul x y).
Proof.
  unfold Js.mul, negate, SFmul.
  destruct x as [sx|sx| |sx mx ex], y as [sy|sy| |sy my ey]; cbn [SFopp];
    rewrite ?xorb_negb_l; try reflexivity.
  apply binary_round_aux_opp.
Qed.

Lemma div_negate (x y : Js.number) :
  SFdiv Js.prec Js.emax (negate x) y = negate (SFdiv Js.prec Js.emax x y).
Proof.
  unfold negate, SFdiv.
  destruct x as [sx|sx| |sx mx ex], y as [sy|sy| |sy my ey]; cbn [SFopp];
    rewrite ?xorb_negb_l; try reflexivity.
  destruct (SFdiv_core_binary Js.prec Js.emax (Z.pos mx) ex (Z.pos my) ey) as [[mz ez] lz].
  apply binary_round_aux_opp.
Qed.

(** Negating the amount negates the converted amount, except that a
    product of zero is always printed ["0.00"] and read back as [+0]. *)
Lemma convert_negate (price rate : Js.number) :
  convert (negate price) rate
  = if is_zero (Js.mul price rate) then S754_zero false
    else negate (convert price rate).
Proof.
  unfold convert. rewrite mul_negate.
  destruct (Js.mul price rate) as [s|s| |s m e]; try reflexivity.
  cbn [negate SFopp Js.toFixed2 is_zero].
  destruct (Js.at_least_1e21 m e); [reflexivity|].
  cbn [Js.parseFloat].
  destruct (Js.nearest_hundredths m e) as [|n|n]; try reflexivity.
  apply (div_negate (S754_finite s n 0)).
Qed.

(** X5: for a rate found in the table held, the price of the negated
    amount is the negated price of the amount ([-0] for [+0] and back
    included), unless the product [basePrice * rate] is a zero, which is
    returned as [+0] for both signs. *)
Theorem negated_amount_negates_price (o : Options) (q : QueryLayer) (st : HookState)
    (code : string) (response : ExchangeRateResponse)
    (rates : gmap string Js.number) (rate : Js.number) :
  reachable st ->
  st_localCurrency st = Some code ->
  rateResponse o q st = Some response ->
  conversion_rates response = Some rates ->
  rates !! code = Some rate ->
  convertedPrice (snapshot o q st) = Some (convert (basePrice o) rate)
  /\ convertedPrice (snapshot (Scenario.with_price (negate (basePrice o)) o) q st)
     = Some (if is_zero (Js.mul (basePrice o) rate) then S754_zero false
             else negate (convert (basePrice o) rate)).
Proof.
  intros Hr Hl Hresp Hrates Hrate. split.
  - apply (found_rate_converts o q st code response rates rate); assumption.
  - rewrite (found_rate_converts (Scenario.with_price (negate (basePrice o)) o) q st
               code response rates rate Hr Hl Hresp Hrates Hrate).
    cbn [Scenario.with_price basePrice]. rewrite convert_negate. reflexivity.
Qed.

Lemma negated_amount_negates_price_witness :
  let o := Scenario.with_manual "EUR" Scenario.request in
  reachable (mount o)
  /\ Scenario.table !! "EUR" = Some (Js.hundredths 88)
  /\ convertedPrice (snapshot (Scenario.with_price (negate (Js.of_Z 100)) o)
                       Scenario.ratesCached (mount o))
     = Some (negate (Js.of_Z 88)).
Proof.
  cbv zeta.
  split; [constructor|]. split; [reflexivity|].
  exact (proj2 (negated_amount_negates_price
                  (Scenario.with_manual "EUR" Scenario.request) Scenario.ratesCached
                  (mount (Scenario.with_manual "EUR" Scenario.request))
                  "EUR" Scenario.rates Scenario.table (Js.hundredths 88)
                  (reach_mount _) eq_refl eq_refl eq_refl eq_refl)).
Defined.

(* ===================================================================== *)
(** * The fetches and what the hook makes of their outcome *)
(* ===================================================================== *)

Lemma append_nil_r (s : string) : s +:+ "" = s.
Proof.
  induction s as [|c s IH]; [reflexivity|].
  rewrite append_String, IH. reflexivity.
Qed.

Lemma includes_suffix (needle before : string) :
  includes needle (before +:+ needle) = true.
Proof.
  rewrite <- (append_nil_r needle) at 2. apply includes_append.
Qed.

Lemma append_inj_r (s a b : string) : s +:+ a = s +:+ b -> a = b.
Proof.
  induction s as [|c s IH]; [exact id|].
  rewrite !append_String. intros [= H]. apply IH, H.
Qed.

(** X6: a fetch answered with a status that is not [ok] is rejected by
    both query functions without reading its body; the message names the
    service and carries the decimal status, so that the two services and
    any two statuses are told apart. *)
Theorem http_failures_carry_status (g : Response GeolocationBody)
    (x : Response ExchangeRateBody) (id : nat) (m n : N) :
  resp_ok g = false -> resp_status g = Some m ->
  resp_ok x = false -> resp_status x = Some n ->
  let a := "Geolocation API error: " +:+ pretty m in
  let b := "Exchange rate API error: " +:+ pretty n in
  geolocation_queryFn (FetchResolved g) = inl a
  /\ exchangeRates_queryFn id (FetchResolved x) = inl b
  /\ includes (pretty m) a = true
  /\ includes (pretty n) b = true
  /\ a <> b
  /\ (forall g' m',
        resp_ok g' = false -> resp_status g' = Some m' ->
        geolocation_queryFn (FetchResolved g') = inl a -> m' = m)
  /\ (forall x' n' id',
        resp_ok x' = false -> resp_status x' = Some n' ->
        exchangeRates_queryFn id' (FetchResolved x') = inl b -> n' = n).
Proof.
  intros Hg Hm Hx Hn a b. subst a b.
  unfold geolocation_queryFn, exchangeRates_queryFn.
  rewrite Hg, Hm, Hx, Hn. cbn [negb interpolate_status].
  split; [reflexivity|]. split; [reflexivity|].
  split; [apply includes_suffix|]. split; [apply includes_suffix|].
  split; [rewrite !append_String; discriminate|]. split.
  - intros g' m' Hg' Hm'. rewrite Hg', Hm'. cbn [negb interpolate_status].
    intros [= H]. apply append_inj_r in H. apply (inj pretty), H.
  - intros x' n' id' Hx' Hn'. rewrite Hx', Hn'. cbn [negb interpolate_status].
    intros [= H]. apply append_inj_r in H. apply (inj pretty), H.
Qed.

Lemma http_failures_carry_status_witness :
  geolocation_queryFn
    (FetchResolved (mkResponse false (Some 500%N) (inr mockGeolocationResponse)))
  = inl "Geolocation API error: 500"
  /\ exchangeRates_queryFn 0
       (FetchResolved (mkResponse false (Some 429%N) (inl "Unexpected token")))
     = inl "Exchange rate API error: 429"
  /\ includes "429" "Exchange rate API error: 429" = true.
Proof.
  destruct (http_failures_carry_status
              (mkResponse false (Some 500%N) (inr mockGeolocationResponse))
              (mkResponse false (Some 429%N) (inl "Unexpected token"))
              0 500 429 eq_refl eq_refl eq_refl eq_refl)
    as (Ha & Hb & _ & Hib & _).
  split; [exact Ha|]. split; [exact Hb | exact Hib].
Defined.

(** What a render returns while the currency is unresolved, nothing is
    loading and no error is held. *)
Lemma unresolved_silent (o : Options) (q : QueryLayer) (st : HookState) :
  reachable st ->
  st_localCurrency st = None ->
  keyIsBlank (apiKey o) = false ->
  q_error (geolocation q) = None ->
  q_isLoading (geolocation q) = false ->
  exchangeRates q (upperBaseCurrency o) None = idle ->
  let out := useCurrencyConverter o q st in
  result_value (returned out)
  = {| convertedPrice := None; localCurrency := None;
       baseCurrency := upperBaseCurrency o; exchangeRate := None;
       isLoading := false; error := None |}
  /\ calls out = [].
Proof.
  intros Hr Hl Hk He Hload Hidle out.
  destruct (render_sources o q st Hr) as (k & m & Hc & Hm & Hs).
  unfold snapshot in Hs. fold out in Hs.
  assert (Hv : result_value (returned out)
               = {| convertedPrice := None; localCurrency := None;
                    baseCurrency := upperBaseCurrency o; exchangeRate := None;
                    isLoading := false; error := None |}).
  { rewrite Hs, Hm, Hc. unfold geolocationError, rateFetchError.
    rewrite Hl, Hk, He, Hload, Hidle. reflexivity. }
  split; [exact Hv|].
  destruct (render_calls_cases o q st Hr) as [H | [(f & _ & _ & _ & H) | (g & e & _ & _ & H)]];
    fold out in H.
  - exact H.
  - rewrite Hv in H. destruct H as [? H]. discriminate H.
  - rewrite Hv in H. discriminate H.
Qed.

(** X7: a geolocation answer that is [ok], does not say ['fail'] and names
    no currency is accepted as data; an instance without manual currency
    then stays, render after render, with no currency, no price, no error
    and [isLoading] false, invokes no callback and never allows the rate
    request. *)
Theorem empty_geolocation_currency_is_silent (o : Options) (q : QueryLayer)
    (status : option N) (body : GeolocationBody) (id n : nat) :
  Js.truthy_opt (manualCurrency o) = false ->
  keyIsBlank (apiKey o) = false ->
  gb_status body <> Some "fail" ->
  gb_currency body = "" ->
  geolocation q
  = settled id (geolocation_queryFn (FetchResolved (mkResponse true status (inr body)))) ->
  exchangeRates q (upperBaseCurrency o) None = idle ->
  Forall (fun out =>
            result_value (returned out)
            = {| convertedPrice := None; localCurrency := None;
                 baseCurrency := upperBaseCurrency o; exchangeRate := None;
                 isLoading := false; error := None |}
            /\ calls out = []
            /\ enabled (exchangeQuery out) = false)
    (run (mount o) (replicate n (mkRender o q))).
Proof.
  intros Hman Hkey Hstatus Hcur Hgeo Hidle.
  assert (Hm : Js.truthy_opt (upperManualCurrency o) = false).
  { unfold upperManualCurrency. destruct (manualCurrency o) as [s|]; [|reflexivity].
    cbn in *. rewrite toUpperCase_truthy. exact Hman. }
  cbn [geolocation_queryFn resp_ok resp_json negb] in Hgeo.
  rewrite bool_decide_eq_false_2 in Hgeo by exact Hstatus.
  cbn [settled] in Hgeo.
  apply unresolved_replicate.
  - split; cbn [r_options r_queries]; [exact Hm|]. rewrite Hgeo, Hcur. reflexivity.
  - intros st Hr Hl.
    destruct (unresolved_silent o q st Hr Hl Hkey) as [Hv Hc];
      [rewrite Hgeo; reflexivity | rewrite Hgeo; reflexivity | exact Hidle |].
    split; [exact Hv|]. split; [exact Hc|].
    apply (unresolved_render o q st Hr Hl).
  - constructor.
  - cbn. unfold Js.or_null. rewrite Hm. reflexivity.
Qed.

Lemma empty_geolocation_currency_is_silent_witness :
  Forall (fun out => error (result_value (returned out)) = None /\ calls out = [])
    (run (mount Scenario.request)
       (replicate 3 (mkRender Scenario.request Display.geoWithoutCurrency))).
Proof.
  eapply Forall_impl.
  - apply (empty_geolocation_currency_is_silent Scenario.request
             Display.geoWithoutCurrency (Some 200%N) Display.noCurrency 0 3);
      [reflexivity | reflexivity | discriminate | reflexivity | reflexivity | reflexivity].
  - intros out (Hv & Hc & _). rewrite Hv. split; [reflexivity | exact Hc].
Defined.

(** X8: when the fetch of the rate table is rejected by its query function
    and the observer holds nothing else for that key, the snapshot carries
    that rejection as its error (unless a geolocation error is held) and
    neither a price nor a rate. *)
Theorem rate_failure_without_data (o : Options) (q : QueryLayer) (st : HookState)
    (f : FetchResult ExchangeRateBody) (reason : string) (id errorId : nat) :
  reachable st ->
  exchangeRates_queryFn id f = inl reason ->
  exchangeRates q (upperBaseCurrency o) (st_localCurrency st)
  = settled errorId (exchangeRates_queryFn id f) ->
  geolocationError q = None ->
  error (snapshot o q st) = Some (mkError reason (QueryObj errorId))
  /\ convertedPrice (snapshot o q st) = None
  /\ exchangeRate (snapshot o q st) = None
  /\ isLoading (snapshot o q st) = q_isLoading (geolocation q).
Proof.
  intros Hr Hf Hentry Hgeo. rewrite Hf in Hentry. cbn [settled] in Hentry.
  destruct (render_sources o q st Hr) as (k & m & _ & _ & Hs).
  rewrite Hs. cbn [error convertedPrice exchangeRate isLoading].
  unfold rateFetchError, rateResponse. rewrite Hgeo, Hentry. cbn [q_error q_data q_isLoading or_else].
  unfold exchangeRate_of. destruct (st_localCurrency st); cbn.
  - rewrite orb_false_r. repeat split.
  - rewrite orb_false_r. repeat split.
Qed.

Lemma rate_failure_without_data_witness :
  let o := Scenario.with_manual "EUR" Scenario.request in
  message <$> error (snapshot o Display.rateRejected (mount o))
  = Some "Exchange rate fetch failed: invalid-key"
  /\ convertedPrice (snapshot o Display.rateRejected (mount o)) = None.
Proof.
  cbv zeta.
  destruct (rate_failure_without_data
              (Scenario.with_manual "EUR" Scenario.request) Display.rateRejected
              (mount (Scenario.with_manual "EUR" Scenario.request))
              Display.invalidKey "Exchange rate fetch failed: invalid-key" 0 7
              (reach_mount _) eq_refl eq_refl eq_refl) as (He & Hc & _).
  rewrite He. split; [reflexivity | exact Hc].
Defined.

(* ===================================================================== *)
(** * The component *)
(* ===================================================================== *)

(** The branch taken, by the fields of the result. *)
Lemma view_of_spec (p : LocalizedPriceProps) (r : CurrencyResult) :
  (view_of p r = LoadingView <-> isLoading r = true)
  /\ (forall price currency,
        view_of p r = PriceView price currency ->
        isLoading r = false /\ error r = None /\ convertedPrice r = Some price)
  /\ (forall err,
        view_of p r = FailureView err <->
        isLoading r = false /\ err = error r
        /\ (is_Some (error r) \/ convertedPrice r = None)).
Proof.
  unfold view_of.
  destruct (isLoading r); cbn [negb andb].
  { split; [tauto|]. split; [discriminate|].
    intros err. split; [discriminate | intros [H _]; discriminate H]. }
  rewrite andb_true_r.
  destruct (error r) as [e|].
  - rewrite (bool_decide_eq_true_2 (is_Some (Some e))) by eauto. cbn [orb].
    split; [split; discriminate|]. split; [discriminate|].
    intros err. split.
    + intros [= <-]. eauto.
    + intros (_ & -> & _). reflexivity.
  - rewrite (bool_decide_eq_false_2 (is_Some (@None Error))) by (intros [? ?]; discriminate).
    cbn [orb].
    destruct (convertedPrice r) as [price|].
    + rewrite bool_decide_eq_false_2 by discriminate.
      split; [split; discriminate|]. split.
      * intros price' currency [= <- _]. auto.
      * intros err. split; [discriminate|].
        intros (_ & _ & [[? H] | H]); discriminate H.
    + rewrite bool_decide_eq_true_2 by reflexivity.
      split; [split; discriminate|]. split; [discriminate|].
      intros err. split.
      * intros [= <-]. auto.
      * intros (_ & -> & _). reflexivity.
Qed.

(** X9: the component shows its loading node exactly while the hook
    reports [isLoading] (the later test [convertedPrice === null] never
    leads there); it shows a price only for a settled result without
    error, and that price is the [convertedPrice] of the result; every
    other result, settled with an error or without a price, goes to the
    failure branch with the error of the result. *)
Theorem component_branches (p : LocalizedPriceProps) (r : CurrencyResult) :
  (view_of p r = LoadingView <-> isLoading r = true)
  /\ (forall price currency,
        view_of p r = PriceView price currency ->
        isLoading r = false /\ error r = None /\ convertedPrice r = Some price)
  /\ (forall err,
        view_of p r = FailureView err <->
        isLoading r = false /\ err = error r
        /\ (is_Some (error r) \/ convertedPrice r = None)).
Proof.
  exact (view_of_spec p r).
Qed.

(** A price shown comes from the resolved currency: from its rate, or
    from a property of that name the table inherits. *)
Lemma price_view_sources (p : LocalizedPriceProps) (q : QueryLayer)
    (st : HookState) (price : Js.number) (currency : string) :
  reachable st ->
  view_of p (snapshot (hook_options p) q st) = PriceView price currency ->
  st_localCurrency st = Some currency
  /\ Js.truthy currency = true
  /\ error (snapshot (hook_options p) q st) = None
  /\ isLoading (snapshot (hook_options p) q st) = false
  /\ exists response rates,
       rateResponse (hook_options p) q st = Some response
       /\ conversion_rates response = Some rates
       /\ ((exists rate,
              rates !! currency = Some rate
              /\ price = convert (lp_basePrice p) rate)
           \/ (rates !! currency = None
               /\ inherited currency = true
               /\ price = S754_nan)).
Proof.
  intros Hr Hview.
  destruct (proj1 (proj2 (view_of_spec p _)) _ _ Hview) as (Hl & He & Hc).
  destruct (converted_sources (hook_options p) q st price Hr Hc)
    as (code & response & rates & Hcode & Hresp & Hrates & Hcases).
  pose proof (reachable_local_truthy st code Hr Hcode) as Ht.
  destruct (render_sources (hook_options p) q st Hr) as (k & m & _ & _ & Hs).
  assert (Hlocal : localCurrency (snapshot (hook_options p) q st) = Some code).
  { rewrite Hs. exact Hcode. }
  unfold view_of in Hview. rewrite Hl, He, Hc, Hlocal in Hview.
  cbn [Js.truthy_opt default] in Hview. rewrite Ht in Hview.
  rewrite (bool_decide_eq_false_2 (is_Some (@None Error))) in Hview
    by (intros [? ?]; discriminate).
  rewrite bool_decide_eq_false_2 in Hview by discriminate.
  cbn in Hview. injection Hview as <-.
  split; [exact Hcode|]. split; [exact Ht|]. split; [exact He|]. split; [exact Hl|].
  exists response, rates. split; [exact Hresp|]. split; [exact Hrates|]. exact Hcases.
Qed.

(** X10: on the results the hook really returns, a price is shown only in
    the resolved target currency (never in the base currency the
    component falls back to), and a result carrying an error is never
    shown as a price; the price shown is the base price converted at the
    rate the table held quotes for that currency, or [NaN] when the table
    only inherits a property of that name. *)
Theorem price_shown_in_resolved_currency (p : LocalizedPriceProps) (q : QueryLayer)
    (st : HookState) (price : Js.number) (currency : string) :
  reachable st ->
  view_of p (snapshot (hook_options p) q st) = PriceView price currency ->
  st_localCurrency st = Some currency
  /\ Js.truthy currency = true
  /\ error (snapshot (hook_options p) q st) = None
  /\ isLoading (snapshot (hook_options p) q st) = false
  /\ exists response rates,
       rateResponse (hook_options p) q st = Some response
       /\ conversion_rates response = Some rates
       /\ ((exists rate,
              rates !! currency = Some rate
              /\ price = convert (lp_basePrice p) rate)
           \/ (rates !! currency = None
               /\ inherited currency = true
               /\ price = S754_nan)).
Proof.
  exact (price_view_sources p q st price currency).
Qed.

Lemma price_shown_in_resolved_currency_witness :
  let st := mount (hook_options Display.manual) in
  reachable st
  /\ view_of Display.manual (snapshot (hook_options Display.manual) Scenario.ratesCached st)
     = PriceView (Js.of_Z 88) "EUR"
  /\ st_localCurrency st = Some "EUR".
Proof.
  cbv zeta.
  split; [constructor|]. split; [reflexivity|].
  exact (proj1 (price_shown_in_resolved_currency Display.manual Scenario.ratesCached
                  (mount (hook_options Display.manual)) (Js.of_Z 88) "EUR"
                  (reach_mount _) eq_refl)).
Defined.

(** X12: a geolocation fetch its query function rejects is final for an
    instance without manual currency: at every render the component takes
    the failure branch with that rejection, rendering the caller's
    [errorComponent] on it or else the original price in the base
    currency; the target currency stays unresolved, so the rate request
    is never allowed. *)
Theorem geolocation_failure_is_shown (numberToString : Js.number -> string)
    (formatCurrency : NumberFormatOptions -> Js.number -> option string)
    (p : LocalizedPriceProps) (fresh : ObjId) (q : QueryLayer) (st : HookState)
    (f : FetchResult GeolocationBody) (reason : string) (id : nat) :
  geolocation_queryFn f = inl reason ->
  geolocation q = settled id (geolocation_queryFn f) ->
  Js.truthy_opt (lp_manualCurrency p) = false ->
  reachable st ->
  st_localCurrency st = None ->
  let failure := mkError reason (QueryObj id) in
  let shown := LocalizedPrice numberToString formatCurrency p fresh q st in
  shown.1
  = match errorComponent p with
    | Some component => Shows (Fragment (component failure))
    | None =>
        match formatCurrency (mkFormat (lp_baseCurrency p) None None) (lp_basePrice p) with
        | Some text =>
            Shows (Span (Some ("Conversion failed, showing original price in "
                               +:+ lp_baseCurrency p)) text)
        | None => Throws
        end
    end
  /\ reachable shown.2
  /\ st_localCurrency shown.2 = None
  /\ enabled (exchangeQuery (useCurrencyConverter (hook_options p) q st)) = false
  /\ st_localCurrency (mount (hook_options p)) = None.
Proof.
  intros Hf Hgeo Hman Hr Hl failure shown.
  rewrite Hf in Hgeo. cbn [settled] in Hgeo. fold failure in Hgeo.
  assert (Hm : Js.truthy_opt (upperManualCurrency (hook_options p)) = false).
  { unfold upperManualCurrency. cbn [hook_options manualCurrency].
    destruct (lp_manualCurrency p) as [s|]; [|reflexivity].
    cbn in *. rewrite toUpperCase_truthy. exact Hman. }
  assert (Hun : unresolvable (mkRender (hook_options p) q)).
  { split; cbn [r_options r_queries]; [exact Hm|]. rewrite Hgeo. reflexivity. }
  assert (Hview : view_of p (snapshot (hook_options p) q st) = FailureView (Some failure)).
  { apply (proj2 (proj2 (view_of_spec p _))).
    destruct (render_sources (hook_options p) q st Hr) as (k & m & _ & _ & Hs).
    rewrite Hs. cbn [isLoading error]. unfold geolocationError.
    rewrite Hgeo, Hl. cbn. rewrite andb_false_r. eauto. }
  subst shown. unfold LocalizedPrice. cbn [fst snd].
  fold (snapshot (hook_options p) q st). rewrite Hview. cbn [render_view default].
  split; [reflexivity|]. split; [constructor; exact Hr|].
  split; [apply unresolved_stays; assumption|].
  split; [apply (unresolved_render _ q st Hr Hl)|].
  change (Js.or_null (upperManualCurrency (hook_options p)) = None).
  unfold Js.or_null. rewrite Hm. reflexivity.
Qed.

Lemma geolocation_failure_is_shown_witness :
  (LocalizedPrice Display.numberToString Display.threeLetters Display.custom
     (QueryObj 9) Display.geoRejected (mount (hook_options Display.custom))).1
  = Shows (Fragment (Span None "Custom: Geolocation API error: 500")).
Proof.
  exact (proj1 (geolocation_failure_is_shown Display.numberToString Display.threeLetters
                  Display.custom (QueryObj 9) Display.geoRejected
                  (mount (hook_options Display.custom))
                  Display.serverError "Geolocation API error: 500" 1
                  eq_refl eq_refl eq_refl (reach_mount _) eq_refl)).
Defined.

(* ===================================================================== *)
(** * The test double of [fetch] against the requests of the hook *)
(* ===================================================================== *)

Lemma exchangeRateUrl_service (key : option string) (base : string) :
  includes "exchangerate-api.com" (exchangeRateUrl key base) = true.
Proof.
  change (exchangeRateUrl key base)
    with ("https://v6." +:+ "exchangerate-api.com"
          +:+ ("/v6/" +:+ interpolate key +:+ "/latest/" +:+ base)).
  apply includes_append.
Qed.

(** X13: [createFetchMock] recognises the geolocation service by
    ['ipapi.co'], which the URL the hook requests does not contain: the
    geolocation request gets the default 404 answer, so the query function
    rejects it and [mockGeolocationResponse] is never delivered, while
    every rate request whose URL does not contain ['ipapi.co'] gets the
    rate table. An instance without manual currency served by this double
    reports ["Geolocation API error: 404"] at every render and never
    resolves a currency or a price. *)
Theorem fetch_mock_misses_geolocation_url :
  (forall x n : GeolocationBody,
     geolocation_queryFn (createFetchMock mockGeolocationResponse x n geolocationUrl)
     = inl "Geolocation API error: 404")
  /\ (forall (g n : ExchangeRateBody) (key : option string) (base : string) (id : nat),
        includes "ipapi.co" (exchangeRateUrl key base) = false ->
        exchangeRates_queryFn id
          (createFetchMock g mockExchangeRateResponse n (exchangeRateUrl key base))
        = inr (mkRates "USD" (rb_conversion_rates mockExchangeRateResponse) (QueryObj id)))
  /\ (forall (o : Options) (x n : GeolocationBody)
             (rates : string -> option string -> QueryResult ExchangeRateResponse)
             (id count : nat),
        Js.truthy_opt (manualCurrency o) = false ->
        let q :=
          {| geolocation :=
               settled id (geolocation_queryFn
                             (createFetchMock mockGeolocationResponse x n geolocationUrl));
             exchangeRates := rates |} in
        Forall (fun out =>
                  message <$> error (result_value (returned out))
                  = Some "Geolocation API error: 404"
                  /\ localCurrency (result_value (returned out)) = None
                  /\ convertedPrice (result_value (returned out)) = None
                  /\ enabled (exchangeQuery out) = false)
          (run (mount o) (replicate count (mkRender o q)))).
Proof.
  split; [intros x n; reflexivity|]. split.
  - intros g n key base id Hgeo. unfold createFetchMock.
    rewrite Hgeo, exchangeRateUrl_service. reflexivity.
  - intros o x n rates id count Hman q.
    assert (Hm : Js.truthy_opt (upperManualCurrency o) = false).
    { unfold upperManualCurrency. destruct (manualCurrency o) as [s|]; [|reflexivity].
      cbn in *. rewrite toUpperCase_truthy. exact Hman. }
    apply unresolved_replicate.
    + split; [exact Hm | reflexivity].
    + intros st Hr Hl.
      destruct (unresolved_render o q st Hr Hl) as (He & _ & Hlc & Hc & _).
      split; [|auto].
      destruct (render_sources o q st Hr) as (k & m & _ & _ & Hs).
      unfold snapshot in Hs. rewrite Hs. reflexivity.
    + constructor.
    + cbn. unfold Js.or_null. rewrite Hm. reflexivity.
Qed.

Lemma fetch_mock_misses_geolocation_url_witness :
  includes "ipapi.co" (exchangeRateUrl (Some "test-api-key") "USD") = false
  /\ exchangeRates_queryFn 0
       (createFetchMock mockExchangeRateResponse mockExchangeRateResponse
          mockExchangeRateResponse (exchangeRateUrl (Some "test-api-key") "USD"))
     = inr (mkRates "USD" (rb_conversion_rates mockExchangeRateResponse) (QueryObj 0))
  /\ Forall (fun out => message <$> error (result_value (returned out))
                        = Some "Geolocation API error: 404")
       (run (mount Scenario.request)
          (replicate 2
             (mkRender Scenario.request
                {| geolocation :=
                     settled 1 (geolocation_queryFn
                                  (createFetchMock mockGeolocationResponse
                                     mockGeolocationResponse mockGeolocationResponse
                                     geolocationUrl));
                   exchangeRates := fun _ _ => idle |}))).
Proof.
  destruct fetch_mock_misses_geolocation_url as (_ & Hrate & Hrun).
  split; [reflexivity|]. split.
  - apply Hrate. reflexivity.
  - eapply Forall_impl.
    + exact (Hrun Scenario.request mockGeolocationResponse mockGeolocationResponse
               (fun _ _ => idle) 1%nat 2%nat eq_refl).
    + intros out H. exact (proj1 H).
Defined.
